(** * Momentum X: time powers, obstacles, difficulty and scoring

    A shallow embedding of the timing/state/scoring core of the game:
    [PowerManager] (src/powers.js), [Obstacle] and [ObstacleManager]
    (src/obstacles.js), [Player] (src/player.js), the constants and
    [checkCollision] of utils.js, the canvas [Game] (src/game.js), and the
    two score rules of the Three.js [Game].

    JavaScript numbers are modelled as exact rationals ([Q]): every finite
    double is a rational and all comparisons of the source are kept as they
    are written; rounding of the double arithmetic is not modelled.  Values
    produced by [Math.floor], and the counters that are only ever incremented,
    are integers ([Z]).  Rendering, DOM access, logging and the particle
    effects never influence the fields modelled here and are left out. *)

From Stdlib Require Import QArith Qround Qminmax Lqa ZArith Lia List Bool.
Import ListNotations.

Open Scope Q_scope.

(** [a < b] on numbers, as a boolean. *)
Definition Qlt_bool (a b : Q) : bool := negb (Qle_bool b a).

(** ** utils.js: constants *)

Module GAME_CONFIG.
Definition CANVAS_WIDTH : Q := 1200.
Definition CANVAS_HEIGHT : Q := 600.
Definition PLAYER_WIDTH : Q := 40.
Definition PLAYER_HEIGHT : Q := 60.
Definition PLAYER_X : Q := 100.
Definition PLAYER_Y : Q := 480.
Definition PLAYER_SPEED : Q := 300.
Definition OBSTACLE_MIN_SPEED : Q := 200.
Definition OBSTACLE_SPAWN_RATE : Q := 1500.
Definition OBSTACLE_MIN_GAP : Q := 500.
Definition FREEZE_DURATION : Q := 2000.
Definition FREEZE_COOLDOWN : Q := 5000.
Definition SLOW_DURATION : Q := 3000.
Definition SLOW_COOLDOWN : Q := 4000.
Definition SPEED_DURATION : Q := 1500.
Definition SPEED_COOLDOWN : Q := 6000.
Definition SCORE_PER_SECOND : Q := 1.
Definition SCORE_PER_OBSTACLE : Q := 5.
Definition DIFFICULTY_INTERVAL : Q := 20000.
Definition DIFFICULTY_SPEED_INCREASE : Q := 2 # 10.
Definition DIFFICULTY_SPAWN_DECREASE : Q := 150.
End GAME_CONFIG.

Inductive GAME_STATES := MENU | PLAYING | GAME_OVER.
Inductive TIME_STATES := NORMAL | FROZEN | SLOW | FAST.
Inductive OBSTACLE_TYPES := SPIKE | DEBRIS | LASER.

Definition GAME_STATES_eqb (a b : GAME_STATES) : bool :=
  match a, b with
  | MENU, MENU | PLAYING, PLAYING | GAME_OVER, GAME_OVER => true
  | _, _ => false
  end.

Definition TIME_STATES_eqb (a b : TIME_STATES) : bool :=
  match a, b with
  | NORMAL, NORMAL | FROZEN, FROZEN | SLOW, SLOW | FAST, FAST => true
  | _, _ => false
  end.

(** ** powers.js: PowerManager *)

Module PowerManager.

(** One entry of [this.powers] (the [key] label is display only). *)
Record Power := mkPower {
  active : bool;
  cooldown : Q;
  duration : Q;
  maxDuration : Q;
  maxCooldown : Q
}.

(** The keys of [this.powers]. *)
Inductive PowerName := freeze | slow | speed.

Record t := mk {
  powers_freeze : Power;
  powers_slow : Power;
  powers_speed : Power;
  currentTimeState : TIME_STATES;
  timeMultiplier : Q
}.

(** [Object.keys(this.powers)], in insertion order. *)
Definition keys : list PowerName := [freeze; slow; speed].

(** [this.powers[powerName]] *)
Definition powers (pm : t) (n : PowerName) : Power :=
  match n with
  | freeze => powers_freeze pm
  | slow => powers_slow pm
  | speed => powers_speed pm
  end.

(** Assignment to the fields of [this.powers[powerName]]. *)
Definition set_power (pm : t) (n : PowerName) (p : Power) : t :=
  match n with
  | freeze => mk p (powers_slow pm) (powers_speed pm)
                 (currentTimeState pm) (timeMultiplier pm)
  | slow => mk (powers_freeze pm) p (powers_speed pm)
               (currentTimeState pm) (timeMultiplier pm)
  | speed => mk (powers_freeze pm) (powers_slow pm) p
                (currentTimeState pm) (timeMultiplier pm)
  end.

Definition set_active (p : Power) (b : bool) : Power :=
  mkPower b (cooldown p) (duration p) (maxDuration p) (maxCooldown p).
Definition set_cooldown (p : Power) (c : Q) : Power :=
  mkPower (active p) c (duration p) (maxDuration p) (maxCooldown p).
Definition set_duration (p : Power) (d : Q) : Power :=
  mkPower (active p) (cooldown p) d (maxDuration p) (maxCooldown p).

Definition new_power (maxD maxC : Q) : Power := mkPower false 0 0 maxD maxC.

(** [constructor()] *)
Definition new : t :=
  mk (new_power GAME_CONFIG.FREEZE_DURATION GAME_CONFIG.FREEZE_COOLDOWN)
     (new_power GAME_CONFIG.SLOW_DURATION GAME_CONFIG.SLOW_COOLDOWN)
     (new_power GAME_CONFIG.SPEED_DURATION GAME_CONFIG.SPEED_COOLDOWN)
     NORMAL 1.

(** [updateTimeState()] *)
Definition updateTimeState (pm : t) : t :=
  if active (powers_freeze pm) then
    mk (powers_freeze pm) (powers_slow pm) (powers_speed pm) FROZEN 0
  else if active (powers_slow pm) then
    mk (powers_freeze pm) (powers_slow pm) (powers_speed pm) SLOW (1 # 2)
  else if active (powers_speed pm) then
    mk (powers_freeze pm) (powers_slow pm) (powers_speed pm) FAST 2
  else
    mk (powers_freeze pm) (powers_slow pm) (powers_speed pm) NORMAL 1.

(** [canActivatePower(powerName)] *)
Definition canActivatePower (pm : t) (n : PowerName) : bool :=
  let power := powers pm n in
  Qle_bool (cooldown power) 0 && negb (active power).

(** [deactivatePower(powerName)] *)
Definition deactivatePower (pm : t) (n : PowerName) : t :=
  let power := powers pm n in
  let power := set_active power false in
  let power := set_duration power 0 in
  updateTimeState (set_power pm n power).

(** [deactivateAllPowers()] *)
Definition deactivateAllPowers (pm : t) : t :=
  fold_left
    (fun pm powerName =>
       if active (powers pm powerName) then deactivatePower pm powerName
       else pm)
    keys pm.

(** The common body of [activateFreeze], [activateSlow] and
    [activateSpeed], which differ only in the entry they name.  The result
    pairs the returned boolean with the manager after the call. *)
Definition activate (n : PowerName) (pm : t) : bool * t :=
  if negb (canActivatePower pm n) then (false, pm)
  else
    let pm := deactivateAllPowers pm in
    let power := powers pm n in
    let power := set_active power true in
    let power := set_duration power (maxDuration power) in
    let power := set_cooldown power (maxCooldown power) in
    (true, updateTimeState (set_power pm n power)).

Definition activateFreeze : t -> bool * t := activate freeze.
Definition activateSlow : t -> bool * t := activate slow.
Definition activateSpeed : t -> bool * t := activate speed.

(** The body of the [forEach] of [update(deltaTime)], for one power. *)
Definition update_power (deltaTime : Q) (pm : t) (n : PowerName) : t :=
  let pm :=
    if active (powers pm n) then
      let power := powers pm n in
      let power := set_duration power (duration power - deltaTime) in
      let pm := set_power pm n power in
      if Qle_bool (duration power) 0 then deactivatePower pm n else pm
    else pm in
  if Qlt_bool 0 (cooldown (powers pm n)) then
    let power := powers pm n in
    let power := set_cooldown power (cooldown power - deltaTime) in
    let power :=
      if Qle_bool (cooldown power) 0 then set_cooldown power 0 else power in
    set_power pm n power
  else pm.

(** [update(deltaTime)] *)
Definition update (pm : t) (deltaTime : Q) : t :=
  updateTimeState (fold_left (update_power deltaTime) keys pm).

Definition getCurrentMultiplier (pm : t) : Q := timeMultiplier pm.
Definition getCurrentTimeState (pm : t) : TIME_STATES := currentTimeState pm.

(** [isAnyPowerActive()] *)
Definition isAnyPowerActive (pm : t) : bool :=
  existsb (fun n => active (powers pm n)) keys.

(** [reset()] *)
Definition reset (pm : t) : t :=
  let pm :=
    fold_left
      (fun pm powerName =>
         let power := powers pm powerName in
         let power := set_active power false in
         let power := set_cooldown power 0 in
         let power := set_duration power 0 in
         set_power pm powerName power)
      keys pm in
  mk (powers_freeze pm) (powers_slow pm) (powers_speed pm) NORMAL 1.

End PowerManager.

(** ** utils.js: helpers *)

(** A rectangle [{x, y, width, height}]. *)
Record Rect := mkRect {
  rect_x : Q;
  rect_y : Q;
  rect_width : Q;
  rect_height : Q
}.

(** [checkCollision(rect1, rect2)] *)
Definition checkCollision (rect1 rect2 : Rect) : bool :=
  Qlt_bool (rect_x rect1) (rect_x rect2 + rect_width rect2) &&
  Qlt_bool (rect_x rect2) (rect_x rect1 + rect_width rect1) &&
  Qlt_bool (rect_y rect1) (rect_y rect2 + rect_height rect2) &&
  Qlt_bool (rect_y rect2) (rect_y rect1 + rect_height rect1).

(** [randomBetween(min, max)]; [random] is the value of [Math.random()]. *)
Definition randomBetween (random min max : Q) : Q :=
  random * (max - min) + min.

(** [randomIntBetween(min, max)]; [random] is the value of [Math.random()]. *)
Definition randomIntBetween (random : Q) (min max : Z) : Z :=
  (Qfloor (random * inject_Z (max - min + 1)) + min)%Z.

(** [clamp(value, min, max)] *)
Definition clamp (value min max : Q) : Q := Qmin (Qmax value min) max.

(** A parameter the caller may leave out ([None]), with its default. *)
Definition default_arg (arg : option Q) (dflt : Q) : Q :=
  match arg with Some v => v | None => dflt end.

(** ** player.js: Player *)

Module Player.

Record t := mk {
  x : Q;
  y : Q;
  width : Q;
  height : Q;
  speed : Q;
  baseSpeed : Q;
  animationTime : Q;
  isActive : bool
}.

(** [constructor()] with its default position. *)
Definition new : t :=
  mk GAME_CONFIG.PLAYER_X GAME_CONFIG.PLAYER_Y
     GAME_CONFIG.PLAYER_WIDTH GAME_CONFIG.PLAYER_HEIGHT
     GAME_CONFIG.PLAYER_SPEED GAME_CONFIG.PLAYER_SPEED 0 true.

(** [update(deltaTime, speedMultiplier = 1.0)] *)
Definition update (p : t) (deltaTime : Q) (speedMultiplier : option Q) : t :=
  if negb (isActive p) then p
  else
    let speedMultiplier := default_arg speedMultiplier 1 in
    let currentSpeed := speed p * speedMultiplier in
    let x' := x p + currentSpeed * (deltaTime / 1000) in
    let x' := clamp x' 50 (GAME_CONFIG.CANVAS_WIDTH - width p - 50) in
    mk x' (y p) (width p) (height p) (speed p) (baseSpeed p)
       (animationTime p + deltaTime) (isActive p).

(** [getBounds()] *)
Definition getBounds (p : t) : Rect := mkRect (x p) (y p) (width p) (height p).

(** [reset()] *)
Definition reset (p : t) : t :=
  mk GAME_CONFIG.PLAYER_X GAME_CONFIG.PLAYER_Y (width p) (height p)
     (baseSpeed p) (baseSpeed p) 0 true.

End Player.

(** ** obstacles.js: Obstacle *)

Module Obstacle.

(** [type] is [None] for a value outside [OBSTACLE_TYPES], which the
    [switch] statements send to their [default] case. *)
Record t := mk {
  x : Q;
  y : Q;
  type : option OBSTACLE_TYPES;
  width : Q;
  height : Q;
  speed : Q;
  baseSpeed : Q;
  animationTime : Q;
  isActive : bool;
  hasBeenPassed : bool
}.

(** [setDimensionsByType()], as the pair (width, height). *)
Definition setDimensionsByType (ty : option OBSTACLE_TYPES) : Q * Q :=
  match ty with
  | Some SPIKE => (30, 80)
  | Some DEBRIS => (50, 50)
  | Some LASER => (15, 120)
  | None => (40, 60)
  end.

(** [constructor(x, y, type, speed)] *)
Definition new (x y : Q) (ty : option OBSTACLE_TYPES) (speed : Q) : t :=
  let (w, h) := setDimensionsByType ty in
  mk x y ty w h speed speed 0 true false.

(** [update(deltaTime, speedMultiplier = 1.0)] *)
Definition update (o : t) (deltaTime : Q) (speedMultiplier : option Q) : t :=
  if negb (isActive o) then o
  else
    let speedMultiplier := default_arg speedMultiplier 1 in
    let currentSpeed := speed o * speedMultiplier in
    mk (x o - currentSpeed * (deltaTime / 1000)) (y o) (type o)
       (width o) (height o) (speed o) (baseSpeed o)
       (animationTime o + deltaTime) (isActive o) (hasBeenPassed o).

(** [getBounds()] *)
Definition getBounds (o : t) : Rect := mkRect (x o) (y o) (width o) (height o).

(** [isOffScreen()] *)
Definition isOffScreen (o : t) : bool := Qlt_bool (x o + width o) 0.

(** [hasPlayerPassed(playerX)] *)
Definition hasPlayerPassed (o : t) (playerX : Q) : bool :=
  negb (hasBeenPassed o) && Qlt_bool (x o + width o) playerX.

(** [markAsPassed()] *)
Definition markAsPassed (o : t) : t :=
  mk (x o) (y o) (type o) (width o) (height o) (speed o) (baseSpeed o)
     (animationTime o) (isActive o) true.

End Obstacle.

(** The values of [Math.random()] consumed by one [spawnObstacle()]: the
    draw that picks the type and the draw that picks the height. *)
Record Random := mkRandom {
  random_type : Q;
  random_y : Q
}.

(** ** obstacles.js: ObstacleManager *)

Module ObstacleManager.

Record t := mk {
  obstacles : list Obstacle.t;
  lastSpawnTime : Q;
  spawnRate : Q;
  minSpawnGap : Q;
  difficultyLevel : Z;
  baseSpawnRate : Q;
  baseSpeed : Q;
  totalSpawned : Z;
  totalDestroyed : Z
}.

(** [constructor()] *)
Definition new : t :=
  mk [] 0 GAME_CONFIG.OBSTACLE_SPAWN_RATE GAME_CONFIG.OBSTACLE_MIN_GAP 0
     GAME_CONFIG.OBSTACLE_SPAWN_RATE GAME_CONFIG.OBSTACLE_MIN_SPEED 0 0.

(** [updateSpawnRate()] *)
Definition updateSpawnRate (m : t) : t :=
  let rate :=
    Qmax (minSpawnGap m)
         (baseSpawnRate m
          - inject_Z (difficultyLevel m) * GAME_CONFIG.DIFFICULTY_SPAWN_DECREASE) in
  mk (obstacles m) (lastSpawnTime m) rate (minSpawnGap m) (difficultyLevel m)
     (baseSpawnRate m) (baseSpeed m) (totalSpawned m) (totalDestroyed m).

(** [Object.values(OBSTACLE_TYPES)] *)
Definition obstacleTypes : list OBSTACLE_TYPES := [SPIKE; DEBRIS; LASER].

(** [obstacleTypes[i]]: [undefined] outside the array. *)
Definition obstacleTypes_at (i : Z) : option OBSTACLE_TYPES :=
  if (i <? 0)%Z then None else nth_error obstacleTypes (Z.to_nat i).

(** [getSpawnYForType(type)] *)
Definition getSpawnYForType (rnd : Random) (ty : option OBSTACLE_TYPES) : Q :=
  let groundLevel := GAME_CONFIG.CANVAS_HEIGHT - 100 in
  match ty with
  | Some SPIKE => groundLevel - 80
  | Some DEBRIS => randomBetween (random_y rnd) 200 (groundLevel - 50)
  | Some LASER => randomBetween (random_y rnd) 100 (groundLevel - 120)
  | None => groundLevel - 60
  end.

(** [spawnObstacle()] *)
Definition spawnObstacle (rnd : Random) (m : t) : t :=
  let randomType :=
    obstacleTypes_at
      (randomIntBetween (random_type rnd) 0
                        (Z.of_nat (length obstacleTypes) - 1)) in
  let spawnX := GAME_CONFIG.CANVAS_WIDTH + 50 in
  let spawnY := getSpawnYForType rnd randomType in
  let speed :=
    baseSpeed m
    + inject_Z (difficultyLevel m) * GAME_CONFIG.DIFFICULTY_SPEED_INCREASE
      * baseSpeed m in
  let obstacle := Obstacle.new spawnX spawnY randomType speed in
  mk (obstacles m ++ [obstacle]) (lastSpawnTime m) (spawnRate m)
     (minSpawnGap m) (difficultyLevel m) (baseSpawnRate m) (baseSpeed m)
     (totalSpawned m + 1) (totalDestroyed m).

(** [handleSpawning(timeElapsed)] *)
Definition handleSpawning (rnd : Random) (m : t) (timeElapsed : Q) : t :=
  if Qle_bool (spawnRate m) (timeElapsed - lastSpawnTime m) then
    let m := spawnObstacle rnd m in
    mk (obstacles m) timeElapsed (spawnRate m) (minSpawnGap m)
       (difficultyLevel m) (baseSpawnRate m) (baseSpeed m)
       (totalSpawned m) (totalDestroyed m)
  else m.

(** [updateObstacles(deltaTime, speedMultiplier)] *)
Definition updateObstacles (m : t) (deltaTime : Q) (speedMultiplier : option Q) : t :=
  mk (map (fun obstacle => Obstacle.update obstacle deltaTime speedMultiplier)
          (obstacles m))
     (lastSpawnTime m) (spawnRate m) (minSpawnGap m) (difficultyLevel m)
     (baseSpawnRate m) (baseSpeed m) (totalSpawned m) (totalDestroyed m).

(** The [filter] callback of [removeOffscreenObstacles()] run over the
    array: the obstacles kept, and [totalDestroyed] after the pass. *)
Fixpoint filterOffscreen (obs : list Obstacle.t) (destroyed : Z)
  : list Obstacle.t * Z :=
  match obs with
  | [] => ([], destroyed)
  | obstacle :: rest =>
      if Obstacle.isOffScreen obstacle then filterOffscreen rest (destroyed + 1)
      else
        let (kept, destroyed) := filterOffscreen rest destroyed in
        (obstacle :: kept, destroyed)
  end.

(** [removeOffscreenObstacles()] *)
Definition removeOffscreenObstacles (m : t) : t :=
  let (kept, destroyed) := filterOffscreen (obstacles m) (totalDestroyed m) in
  mk kept (lastSpawnTime m) (spawnRate m) (minSpawnGap m) (difficultyLevel m)
     (baseSpawnRate m) (baseSpeed m) (totalSpawned m) destroyed.

(** [update(deltaTime, timeElapsed, difficultyLevel, speedMultiplier = 1.0)] *)
Definition update (rnd : Random) (m : t) (deltaTime timeElapsed : Q)
           (difficultyLevel : Z) (speedMultiplier : option Q) : t :=
  let speedMultiplier := Some (default_arg speedMultiplier 1) in
  let m :=
    mk (obstacles m) (lastSpawnTime m) (spawnRate m) (minSpawnGap m)
       difficultyLevel (baseSpawnRate m) (baseSpeed m)
       (totalSpawned m) (totalDestroyed m) in
  let m := updateSpawnRate m in
  let m := handleSpawning rnd m timeElapsed in
  let m := updateObstacles m deltaTime speedMultiplier in
  removeOffscreenObstacles m.

(** [checkCollisions(player)] *)
Definition checkCollisions (m : t) (player : Player.t) : option Obstacle.t :=
  let playerBounds := Player.getBounds player in
  find (fun obstacle => checkCollision playerBounds (Obstacle.getBounds obstacle))
       (obstacles m).

(** The [forEach] of [checkObstaclesPassed(playerX)]: the obstacles after
    marking, and [passedCount]. *)
Fixpoint markPassed (obs : list Obstacle.t) (playerX : Q) (passedCount : Z)
  : list Obstacle.t * Z :=
  match obs with
  | [] => ([], passedCount)
  | obstacle :: rest =>
      if Obstacle.hasPlayerPassed obstacle playerX then
        let (rest', n) := markPassed rest playerX (passedCount + 1) in
        (Obstacle.markAsPassed obstacle :: rest', n)
      else
        let (rest', n) := markPassed rest playerX passedCount in
        (obstacle :: rest', n)
  end.

(** [checkObstaclesPassed(playerX)]: the returned count and the manager. *)
Definition checkObstaclesPassed (m : t) (playerX : Q) : Z * t :=
  let (obs, passedCount) := markPassed (obstacles m) playerX 0 in
  (passedCount,
   mk obs (lastSpawnTime m) (spawnRate m) (minSpawnGap m) (difficultyLevel m)
      (baseSpawnRate m) (baseSpeed m) (totalSpawned m) (totalDestroyed m)).

Definition getObstacleCount (m : t) : Z := Z.of_nat (length (obstacles m)).

(** [reset()] *)
Definition reset (m : t) : t :=
  mk [] 0 (baseSpawnRate m) (minSpawnGap m) 0 (baseSpawnRate m) (baseSpeed m)
     0 0.

End ObstacleManager.

(** ** game.js: Game *)

(** The key codes [handleKeyPress] distinguishes. *)
Inductive KeyCode := Space | KeyR | KeyF | KeyS | KeyD | OtherKey.

Module Game.

(** The game after [init()]: [player] and [obstacleManager] are created by
    [initializeGameSystems()]; [powerManager] is [null] ([None]) unless a
    manager is installed. *)
Record t := mk {
  state : GAME_STATES;
  score : Q;
  timeElapsed : Q;
  difficultyLevel : Z;
  isRunning : bool;
  player : Player.t;
  obstacleManager : ObstacleManager.t;
  powerManager : option PowerManager.t;
  lastTime : Q;
  deltaTime : Q
}.

Definition set_state (g : t) (s : GAME_STATES) : t :=
  mk s (score g) (timeElapsed g) (difficultyLevel g) (isRunning g) (player g)
     (obstacleManager g) (powerManager g) (lastTime g) (deltaTime g).
Definition set_score (g : t) (s : Q) : t :=
  mk (state g) s (timeElapsed g) (difficultyLevel g) (isRunning g) (player g)
     (obstacleManager g) (powerManager g) (lastTime g) (deltaTime g).
Definition set_timeElapsed (g : t) (e : Q) : t :=
  mk (state g) (score g) e (difficultyLevel g) (isRunning g) (player g)
     (obstacleManager g) (powerManager g) (lastTime g) (deltaTime g).
Definition set_difficultyLevel (g : t) (l : Z) : t :=
  mk (state g) (score g) (timeElapsed g) l (isRunning g) (player g)
     (obstacleManager g) (powerManager g) (lastTime g) (deltaTime g).
Definition set_player (g : t) (p : Player.t) : t :=
  mk (state g) (score g) (timeElapsed g) (difficultyLevel g) (isRunning g) p
     (obstacleManager g) (powerManager g) (lastTime g) (deltaTime g).
Definition set_obstacleManager (g : t) (m : ObstacleManager.t) : t :=
  mk (state g) (score g) (timeElapsed g) (difficultyLevel g) (isRunning g)
     (player g) m (powerManager g) (lastTime g) (deltaTime g).
Definition set_powerManager (g : t) (pm : option PowerManager.t) : t :=
  mk (state g) (score g) (timeElapsed g) (difficultyLevel g) (isRunning g)
     (player g) (obstacleManager g) pm (lastTime g) (deltaTime g).

(** [constructor()] followed by [init()]: the power manager is not created
    ([// this.powerManager = new PowerManager();]). *)
Definition new : t :=
  mk MENU 0 0 0 false Player.new ObstacleManager.new None 0 0.

(** [startGame()]; [now] is [performance.now()]. *)
Definition startGame (now : Q) (g : t) : t :=
  mk PLAYING 0 0 0 true (player g) (obstacleManager g) (powerManager g)
     (if isRunning g then lastTime g else now) (deltaTime g).

(** [updateDifficulty()] *)
Definition updateDifficulty (g : t) : t :=
  let newDifficultyLevel :=
    Qfloor (timeElapsed g / GAME_CONFIG.DIFFICULTY_INTERVAL) in
  if (difficultyLevel g <? newDifficultyLevel)%Z
  then set_difficultyLevel g newDifficultyLevel
  else g.

(** [updateScore(deltaTime)] *)
Definition updateScore (g : t) (deltaTime : Q) : t :=
  let timeScore := (deltaTime / 1000) * GAME_CONFIG.SCORE_PER_SECOND in
  set_score g (score g + timeScore).

(** [handleGameOver()] *)
Definition handleGameOver (g : t) : t := set_state g GAME_OVER.

(** [update(deltaTime)].  The obstacle manager is called with three
    arguments, so its [speedMultiplier] takes its default; the power manager
    is not updated ([// this.powerManager.update(deltaTime);]). *)
Definition update (rnd : Random) (g : t) (deltaTime : Q) : t :=
  if negb (GAME_STATES_eqb (state g) PLAYING) then g
  else
    let g := set_timeElapsed g (timeElapsed g + deltaTime) in
    let g := updateDifficulty g in
    let g := updateScore g deltaTime in
    let g := set_player g (Player.update (player g) deltaTime None) in
    let g :=
      set_obstacleManager g
        (ObstacleManager.update rnd (obstacleManager g) deltaTime
           (timeElapsed g) (difficultyLevel g) None) in
    match ObstacleManager.checkCollisions (obstacleManager g) (player g) with
    | Some collidedObstacle => handleGameOver g
    | None =>
        let (obstaclesPassed, m) :=
          ObstacleManager.checkObstaclesPassed
            (obstacleManager g) (Player.x (player g)) in
        let g := set_obstacleManager g m in
        if (0 <? obstaclesPassed)%Z then
          set_score g
            (score g + inject_Z obstaclesPassed * GAME_CONFIG.SCORE_PER_OBSTACLE)
        else g
    end.

(** [gameLoop(currentTime)] *)
Definition gameLoop (rnd : Random) (g : t) (currentTime : Q) : t :=
  if negb (isRunning g) then g
  else
    let dt := currentTime - lastTime g in
    let g :=
      mk (state g) (score g) (timeElapsed g) (difficultyLevel g) (isRunning g)
         (player g) (obstacleManager g) (powerManager g) currentTime dt in
    update rnd g dt.

(** [restart()] *)
Definition restart (now : Q) (g : t) : t :=
  let g :=
    mk (state g) 0 0 0 (isRunning g) (Player.reset (player g))
       (ObstacleManager.reset (obstacleManager g)) (powerManager g)
       (lastTime g) (deltaTime g) in
  startGame now g.

(** The call [this.powerManager.activateX()] of a key handler, whose
    returned boolean is dropped. *)
Definition request (n : PowerManager.PowerName) (g : t) : t :=
  match state g, powerManager g with
  | PLAYING, Some pm => set_powerManager g (Some (snd (PowerManager.activate n pm)))
  | _, _ => g
  end.

(** [handleKeyPress(keyCode)] *)
Definition handleKeyPress (now : Q) (g : t) (keyCode : KeyCode) : t :=
  match keyCode with
  | Space => if GAME_STATES_eqb (state g) MENU then startGame now g else g
  | KeyR => if GAME_STATES_eqb (state g) GAME_OVER then restart now g else g
  | KeyF => request PowerManager.freeze g
  | KeyS => request PowerManager.slow g
  | KeyD => request PowerManager.speed g
  | OtherKey => g
  end.

End Game.

(** ** The Three.js variant of the game (the second [Game] class)

    Its [update] reads the multiplier and the time state from the power
    manager, updates the power manager, and hands the multiplier to the
    obstacle manager; its two score rules are the ones below. *)

Module Game3D.

(** [updateScore(deltaTime)]: the new score. *)
Definition updateScore (powerManager : option PowerManager.t) (score deltaTime : Q) : Q :=
  let scoreMultiplier :=
    match powerManager with
    | Some pm =>
        if TIME_STATES_eqb (PowerManager.getCurrentTimeState pm) FAST
        then 2 else 1
    | None => 1
    end in
  let timeScore := (deltaTime / 1000) * GAME_CONFIG.SCORE_PER_SECOND * scoreMultiplier in
  score + timeScore.

(** The score rule for passed obstacles in [update(deltaTime)]; [timeState]
    is the state read at the start of the tick. *)
Definition passScore (timeState : TIME_STATES) (score : Q) (obstaclesPassed : Z) : Q :=
  if (0 <? obstaclesPassed)%Z then
    let scoreMultiplier := if TIME_STATES_eqb timeState FAST then 2 else 1 in
    score + inject_Z obstaclesPassed * GAME_CONFIG.SCORE_PER_OBSTACLE * scoreMultiplier
  else score.

End Game3D.

(** ** Drivers: sequences of calls *)

Module PowerOps.
Import PowerManager.

(** One call on a [PowerManager]. *)
Inductive Op :=
| Update (deltaTime : Q)
| Activate (n : PowerName)
| DeactivatePower (n : PowerName)
| DeactivateAllPowers
| Reset.

Definition step (pm : t) (op : Op) : t :=
  match op with
  | Update deltaTime => update pm deltaTime
  | Activate n => snd (activate n pm)
  | DeactivatePower n => deactivatePower pm n
  | DeactivateAllPowers => deactivateAllPowers pm
  | Reset => reset pm
  end.

Definition run (ops : list Op) (pm : t) : t := fold_left step ops pm.

(** The [deltaTime] of an [Update] is not negative. *)
Definition nonneg_delta (op : Op) : Prop :=
  match op with
  | Update deltaTime => 0 <= deltaTime
  | _ => True
  end.

(** The precedence table Frozen > Slow > Fast > Normal, as a function of the
    three [active] flags. *)
Definition precedence (freeze_active slow_active speed_active : bool)
  : TIME_STATES * Q :=
  if freeze_active then (FROZEN, 0)
  else if slow_active then (SLOW, 1 # 2)
  else if speed_active then (FAST, 2)
  else (NORMAL, 1).

(** How many powers are active. *)
Definition activeCount (pm : t) : nat :=
  length (filter (fun n => active (powers pm n)) keys).

(** What [update(deltaTime)] does to one entry of [this.powers]. *)
Definition tick (deltaTime : Q) (p : Power) : Power :=
  let p :=
    if active p then
      let p := set_duration p (duration p - deltaTime) in
      if Qle_bool (duration p) 0
      then set_duration (set_active p false) 0
      else p
    else p in
  if Qlt_bool 0 (cooldown p) then
    let p := set_cooldown p (cooldown p - deltaTime) in
    if Qle_bool (cooldown p) 0 then set_cooldown p 0 else p
  else p.

Definition PowerName_eqb (a b : PowerName) : bool :=
  match a, b with
  | freeze, freeze | slow, slow | speed, speed => true
  | _, _ => false
  end.

(** The stored derived state agrees with the precedence table. *)
Definition derived_ok (pm : t) : Prop :=
  (currentTimeState pm, timeMultiplier pm)
  = precedence (active (powers pm freeze)) (active (powers pm slow))
               (active (powers pm speed)).

(** At most one power is active. *)
Definition atMostOneActive (pm : t) : bool := (activeCount pm <=? 1)%nat.

(** What [deactivatePower] does to the entry it names. *)
Definition deactivated (p : Power) : Power :=
  set_duration (set_active p false) 0.

(** What a successful activation does to the entry it names. *)
Definition activated (p : Power) : Power :=
  mkPower true (maxCooldown p) (maxDuration p) (maxDuration p) (maxCooldown p).

(** The time that passes in a sequence of updates. *)
Definition elapsed (deltas : list Q) : Q := fold_right Qplus 0 deltas.

(** A sequence of updates, seen from one entry. *)
Definition ticks (deltas : list Q) (p : Power) : Power :=
  fold_left (fun p deltaTime => tick deltaTime p) deltas p.

(** No timer of an entry is negative. *)
Definition power_nonneg (p : Power) : Prop :=
  0 <= duration p /\ 0 <= cooldown p /\ 0 <= maxDuration p /\ 0 <= maxCooldown p.

End PowerOps.

Module ObstacleOps.
Import ObstacleManager.

(** One call on an [ObstacleManager]. *)
Inductive Op :=
| Update (rnd : Random) (deltaTime timeElapsed : Q) (difficultyLevel : Z)
         (speedMultiplier : option Q)
| SpawnObstacle (rnd : Random)
| RemoveOffscreenObstacles
| CheckObstaclesPassed (playerX : Q)
| Reset.

Definition step (m : t) (op : Op) : t :=
  match op with
  | Update rnd deltaTime timeElapsed difficultyLevel speedMultiplier =>
      update rnd m deltaTime timeElapsed difficultyLevel speedMultiplier
  | SpawnObstacle rnd => spawnObstacle rnd m
  | RemoveOffscreenObstacles => removeOffscreenObstacles m
  | CheckObstaclesPassed playerX => snd (checkObstaclesPassed m playerX)
  | Reset => reset m
  end.

Definition run (ops : list Op) (m : t) : t := fold_left step ops m.

(** The counter identity: spawned minus destroyed is the number of obstacles
    in the collection. *)
Definition counters_ok (m : t) : Prop :=
  (totalSpawned m - totalDestroyed m = Z.of_nat (length (obstacles m)))%Z.

End ObstacleOps.

Module GameOps.
Import Game.

(** One frame: the [deltaTime] given to [update] and the random draws it may
    consume. *)
Definition Frame : Type := Q * Random.

Definition frame (g : t) (f : Frame) : t := update (snd f) g (fst f).

Definition run (frames : list Frame) (g : t) : t := fold_left frame frames g.


(** The level is the number of whole 20000 ms intervals that have elapsed. *)
Definition level_ok (g : t) : Prop :=
  difficultyLevel g = Qfloor (timeElapsed g / 20000).

(** The stages of one playing-state [update(deltaTime)]: the level after
    [updateDifficulty()], the player and the obstacle manager after their
    updates, the result of [checkCollisions] and the count returned by
    [checkObstaclesPassed]. *)
Definition level_after (g : t) (deltaTime : Q) : Z :=
  difficultyLevel
    (updateDifficulty (set_timeElapsed g (timeElapsed g + deltaTime))).

Definition player_after (g : t) (deltaTime : Q) : Player.t :=
  Player.update (player g) deltaTime None.

Definition obstacles_after (rnd : Random) (g : t) (deltaTime : Q)
  : ObstacleManager.t :=
  ObstacleManager.update rnd (obstacleManager g) deltaTime
    (timeElapsed g + deltaTime) (level_after g deltaTime) None.

Definition collision_after (rnd : Random) (g : t) (deltaTime : Q)
  : option Obstacle.t :=
  ObstacleManager.checkCollisions (obstacles_after rnd g deltaTime)
                                  (player_after g deltaTime).

Definition hazards_passed (rnd : Random) (g : t) (deltaTime : Q) : Z :=
  fst (ObstacleManager.checkObstaclesPassed
         (obstacles_after rnd g deltaTime)
         (Player.x (player_after g deltaTime))).

(** The power manager's view of one power, when a manager is installed. *)
Definition power (g : t) (n : PowerManager.PowerName) : option PowerManager.Power :=
  option_map (fun pm => PowerManager.powers pm n) (powerManager g).

End GameOps.

(** A concrete run of the canvas game, from the game as constructed. *)
Module Scenario.
Import GameOps.

(** The first draw picks DEBRIS, the second places it at height 200, clear of
    the player. *)
Definition rnd : Random := mkRandom (1 # 2) 0.

(** Space is pressed on the menu. *)
Definition started : Game.t := Game.handleKeyPress 0 Game.new Space.

(** After 1500 ms the first hazard has been spawned. *)
Definition spawned : Game.t := Game.update rnd started 1500.

End Scenario.

(** ** More of utils.js *)

(** [lerp(start, end, t)] *)
Definition lerp (start end_ t : Q) : Q := start + (end_ - start) * t.

(** A particle, as [createParticle] builds it (the colour is display only). *)
Record Particle := mkParticle {
  particle_x : Q;
  particle_y : Q;
  particle_vx : Q;
  particle_vy : Q;
  particle_life : Q;
  particle_maxLife : Q;
  particle_size : Q
}.

(** The body of the loop of [updateParticles] for one particle. *)
Definition moveParticle (deltaTime : Q) (p : Particle) : Particle :=
  mkParticle (particle_x p + particle_vx p * (deltaTime / 1000))
             (particle_y p + particle_vy p * (deltaTime / 1000))
             (particle_vx p) (particle_vy p)
             (particle_life p - deltaTime)
             (particle_maxLife p) (particle_size p).

(** [updateParticles(particles, deltaTime)]: the loop runs from the last
    index down and splices out the particles whose life is used up. *)
Definition updateParticles (particles : list Particle) (deltaTime : Q)
  : list Particle :=
  fold_right
    (fun particle rest =>
       let particle := moveParticle deltaTime particle in
       if Qle_bool (particle_life particle) 0 then rest else particle :: rest)
    [] particles.

(** ** utils.js: PerformanceMonitor *)

Module PerformanceMonitor.

(** The constructor never assigns [lastFpsUpdate]: it is [undefined]
    ([None]) until [update] assigns it. *)
Record t := mk {
  frameCount : Z;
  lastTime : Q;
  fps : Z;
  frameTime : Q;
  lastFpsUpdate : option Q
}.

(** [constructor()] *)
Definition new : t := mk 0 0 0 0 None.

(** [Math.round] *)
Definition round (v : Q) : Z := Qfloor (v + (1 # 2)).

(** [update(currentTime)].  With [lastFpsUpdate] undefined the difference
    [currentTime - this.lastFpsUpdate] is NaN and the test [> 1000] is
    false. *)
Definition update (m : t) (currentTime : Q) : t :=
  let frameCount := (frameCount m + 1)%Z in
  let frameTime := currentTime - lastTime m in
  match lastFpsUpdate m with
  | Some last =>
      if Qlt_bool 1000 (currentTime - last) then
        mk 0 currentTime
           (round (inject_Z frameCount * 1000 / (currentTime - last)))
           frameTime (Some currentTime)
      else mk frameCount currentTime (fps m) frameTime (Some last)
  | None => mk frameCount currentTime (fps m) frameTime None
  end.

Definition getFPS (m : t) : Z := fps m.
Definition getFrameTime (m : t) : Q := frameTime m.

End PerformanceMonitor.

(** ** powers.js: getPowerStatus *)

Module PowerStatus.
Import PowerManager.

(** The object returned by [getPowerStatus]. *)
Record t := mk {
  available : bool;
  active : bool;
  cooldown : Q;
  maxCooldown : Q;
  duration : Q;
  maxDuration : Q;
  cooldownPercent : Q;
  durationPercent : Q
}.

(** [getPowerStatus(powerName)] *)
Definition getPowerStatus (pm : PowerManager.t) (n : PowerName) : t :=
  let power := powers pm n in
  mk (canActivatePower pm n)
     (PowerManager.active power)
     (PowerManager.cooldown power)
     (PowerManager.maxCooldown power)
     (PowerManager.duration power)
     (PowerManager.maxDuration power)
     (if Qlt_bool 0 (PowerManager.cooldown power)
      then PowerManager.cooldown power / PowerManager.maxCooldown power
      else 0)
     (if PowerManager.active power
      then PowerManager.duration power / PowerManager.maxDuration power
      else 0).

End PowerStatus.

(** ** More drivers *)

Module PowerEquiv.
Import PowerManager.

(** Two entries hold the same flags and equal numbers. *)
Definition power_eq (p q : Power) : Prop :=
  active p = active q /\ cooldown p == cooldown q /\
  duration p == duration q /\ maxDuration p == maxDuration q /\
  maxCooldown p == maxCooldown q.

(** Two managers agree on every entry and on the derived state. *)
Definition manager_eq (a b : t) : Prop :=
  (forall n, power_eq (powers a n) (powers b n)) /\
  currentTimeState a = currentTimeState b /\
  timeMultiplier a = timeMultiplier b.

(** The configured active time of each power. *)
Definition configuredDuration (n : PowerName) : Q :=
  match n with
  | freeze => GAME_CONFIG.FREEZE_DURATION
  | slow => GAME_CONFIG.SLOW_DURATION
  | speed => GAME_CONFIG.SPEED_DURATION
  end.

(** The configured cooldown of each power. *)
Definition configuredCooldown (n : PowerName) : Q :=
  match n with
  | freeze => GAME_CONFIG.FREEZE_COOLDOWN
  | slow => GAME_CONFIG.SLOW_COOLDOWN
  | speed => GAME_CONFIG.SPEED_COOLDOWN
  end.

(** The configured maxima are in place; a running power has time left and
    its cooldown is ahead of its duration by the configured difference; a
    power that is off has no duration. *)
Definition power_inv (n : PowerName) (p : Power) : Prop :=
  maxDuration p = configuredDuration n /\
  maxCooldown p = configuredCooldown n /\
  if active p
  then 0 < duration p /\
       cooldown p == duration p + (configuredCooldown n - configuredDuration n)
  else duration p = 0.

(** The sum of whole-millisecond ticks. *)
Definition total_ms (ticks : list Z) : Z := fold_right Z.add 0%Z ticks.

(** Updates of the power manager by whole milliseconds. *)
Definition updates_ms (ticks : list Z) : list PowerOps.Op :=
  map (fun ms => PowerOps.Update (inject_Z ms)) ticks.

(** Both timers lie between 0 and their maximum. *)
Definition power_bounded (p : Power) : Prop :=
  0 <= duration p /\ duration p <= maxDuration p /\
  0 <= cooldown p /\ cooldown p <= maxCooldown p.

End PowerEquiv.

Module GameEvents.
Import Game.

(** What the browser delivers to the game: a key press (with the value of
    [performance.now()] at that moment), or an animation frame. *)
Inductive Event :=
| KeyPress (now : Q) (keyCode : KeyCode)
| AnimationFrame (rnd : Random) (currentTime : Q).

Definition handle (g : t) (e : Event) : t :=
  match e with
  | KeyPress now keyCode => handleKeyPress now g keyCode
  | AnimationFrame rnd currentTime => gameLoop rnd g currentTime
  end.

Definition play (events : list Event) (g : t) : t := fold_left handle events g.

(** The event is not the R key. *)
Definition not_restart (e : Event) : Prop :=
  match e with
  | KeyPress _ KeyR => False
  | _ => True
  end.

(** The event is not the Space key. *)
Definition not_space (e : Event) : Prop :=
  match e with
  | KeyPress _ Space => False
  | _ => True
  end.

(** The fields of the game that carry the run: everything but the two
    timestamps of the loop. *)
Definition core (g : t) :=
  (state g, score g, timeElapsed g, difficultyLevel g, isRunning g,
   player g, obstacleManager g, powerManager g).


End GameEvents.

(** * Properties *)

Lemma Qlt_bool_iff a b : Qlt_bool a b = true <-> a < b.
Proof.
  unfold Qlt_bool. rewrite negb_true_iff, <- not_true_iff_false, Qle_bool_iff.
  split; intro H; [apply Qnot_le_lt | apply Qlt_not_le]; exact H.
Qed.

Lemma Qlt_bool_false_iff a b : Qlt_bool a b = false <-> b <= a.
Proof.
  unfold Qlt_bool. rewrite negb_false_iff. apply Qle_bool_iff.
Qed.

Lemma Qle_bool_false_iff a b : Qle_bool a b = false <-> b < a.
Proof.
  rewrite <- not_true_iff_false, Qle_bool_iff.
  split; intro H; [apply Qnot_le_lt | apply Qlt_not_le]; exact H.
Qed.

(** Turn the boolean tests recorded in the context into (in)equalities. *)
Ltac reflect_tests :=
  repeat match goal with
  | H : Qle_bool _ _ = true |- _ => apply Qle_bool_iff in H
  | H : Qle_bool _ _ = false |- _ => apply Qle_bool_false_iff in H
  | H : Qlt_bool _ _ = true |- _ => apply Qlt_bool_iff in H
  | H : Qlt_bool _ _ = false |- _ => apply Qlt_bool_false_iff in H
  end.

(** Split on the first test of a conditional in the goal. *)
Ltac split_if :=
  match goal with
  | |- context [if ?c then _ else _] => destruct c eqn:?
  end.

Module PowerFacts.
Import PowerManager PowerOps.

Lemma PowerName_eqb_eq a b : PowerName_eqb a b = true <-> a = b.
Proof. destruct a, b; simpl; split; congruence. Qed.

(** *** The derived state *)

Lemma updateTimeState_powers pm n :
  powers (updateTimeState pm) n = powers pm n.
Proof.
  unfold updateTimeState.
  destruct (active (powers_freeze pm)), (active (powers_slow pm)),
    (active (powers_speed pm)), n; reflexivity.
Qed.

Lemma updateTimeState_derived pm : derived_ok (updateTimeState pm).
Proof.
  unfold derived_ok, updateTimeState, precedence; simpl.
  destruct (active (powers_freeze pm)) eqn:Hf; simpl; rewrite ?Hf; trivial.
  destruct (active (powers_slow pm)) eqn:Hs; simpl; rewrite ?Hf, ?Hs; trivial.
  destruct (active (powers_speed pm)) eqn:Hp; simpl; rewrite ?Hf, ?Hs, ?Hp;
    trivial.
Qed.

Lemma deactivatePower_derived pm n : derived_ok (deactivatePower pm n).
Proof. apply updateTimeState_derived. Qed.

Lemma deactivateAllPowers_derived pm :
  derived_ok pm -> derived_ok (deactivateAllPowers pm).
Proof.
  unfold deactivateAllPowers. generalize keys as l. intros l. revert pm.
  induction l as [|n l IH]; intros pm H; simpl; trivial.
  apply IH. destruct (active (powers pm n)); trivial.
  apply deactivatePower_derived.
Qed.

Lemma activate_derived n pm : derived_ok pm -> derived_ok (snd (activate n pm)).
Proof.
  intros H. unfold activate.
  destruct (negb (canActivatePower pm n)); simpl; trivial.
  apply updateTimeState_derived.
Qed.

Lemma activate_established n pm :
  fst (activate n pm) = true -> derived_ok (snd (activate n pm)).
Proof.
  unfold activate. destruct (negb (canActivatePower pm n)); simpl;
    [discriminate | intros _; apply updateTimeState_derived].
Qed.

Lemma reset_derived pm : derived_ok (reset pm).
Proof. reflexivity. Qed.

Lemma new_derived : derived_ok new.
Proof. reflexivity. Qed.

Lemma step_derived pm op : derived_ok pm -> derived_ok (step pm op).
Proof.
  destruct op; simpl; intros H.
  - apply updateTimeState_derived.
  - now apply activate_derived.
  - apply deactivatePower_derived.
  - now apply deactivateAllPowers_derived.
  - apply reset_derived.
Qed.

Lemma run_derived ops pm : derived_ok pm -> derived_ok (run ops pm).
Proof.
  revert pm. induction ops as [|op ops IH]; intros pm H; simpl; trivial.
  apply IH, step_derived, H.
Qed.

Lemma precedence_multiplier f s p :
  In (snd (precedence f s p)) [0; 1 # 2; 1; 2].
Proof. destruct f, s, p; simpl; auto. Qed.

(** C3: after any sequence of PowerManager calls (update, activation,
    deactivation, reset), started from the constructed manager or from a
    manager that was just reset, [currentTimeState] and [timeMultiplier] are
    what the precedence Frozen > Slow > Fast > Normal gives for the three
    [active] flags, and the multiplier is one of 0, 1/2, 1, 2. *)
Theorem derived_state_follows_precedence (ops : list Op) (pm0 : t) :
  let after_new := run ops new in
  let after_reset := run ops (reset pm0) in
  derived_ok after_new /\ derived_ok after_reset /\
  In (timeMultiplier after_new) [0; 1 # 2; 1; 2] /\
  In (timeMultiplier after_reset) [0; 1 # 2; 1; 2].
Proof.
  intros after_new after_reset.
  assert (Hn : derived_ok after_new) by apply run_derived, new_derived.
  assert (Hr : derived_ok after_reset) by apply run_derived, reset_derived.
  repeat split; trivial.
  - unfold derived_ok in Hn.
    replace (timeMultiplier after_new)
      with (snd (currentTimeState after_new, timeMultiplier after_new))
      by reflexivity.
    rewrite Hn. apply precedence_multiplier.
  - unfold derived_ok in Hr.
    replace (timeMultiplier after_reset)
      with (snd (currentTimeState after_reset, timeMultiplier after_reset))
      by reflexivity.
    rewrite Hr. apply precedence_multiplier.
Qed.

End PowerFacts.

Module PowerTimers.
Import PowerManager PowerOps PowerFacts.

(** *** The entries after each call *)

Lemma set_power_powers pm n p m :
  powers (set_power pm n p) m = if PowerName_eqb m n then p else powers pm m.
Proof. destruct n, m; reflexivity. Qed.

Lemma deactivatePower_powers pm n m :
  powers (deactivatePower pm n) m
  = if PowerName_eqb m n then deactivated (powers pm n) else powers pm m.
Proof.
  unfold deactivatePower. rewrite updateTimeState_powers, set_power_powers.
  reflexivity.
Qed.

Lemma deactivateAllPowers_powers pm m :
  powers (deactivateAllPowers pm) m
  = if active (powers pm m) then deactivated (powers pm m) else powers pm m.
Proof.
  destruct pm as [[af cf df mdf mcf] [asl csl dsl mdsl mcsl]
                    [asp csp dsp mdsp mcsp] st mult].
  destruct af, asl, asp, m; reflexivity.
Qed.

Lemma update_power_powers d pm n m :
  powers (update_power d pm n) m
  = if PowerName_eqb m n then tick d (powers pm n) else powers pm m.
Proof.
  assert (R : PowerName_eqb n n = true) by (destruct n; reflexivity).
  unfold update_power, tick. cbv zeta.
  destruct (active (powers pm n)) eqn:Ha.
  - cbn [duration set_duration].
    destruct (Qle_bool (duration (powers pm n) - d) 0) eqn:Hd;
      repeat first [rewrite deactivatePower_powers | rewrite set_power_powers
                   | rewrite R];
      cbn [cooldown deactivated set_duration set_active set_cooldown];
      destruct (Qlt_bool 0 (cooldown (powers pm n))) eqn:Hc;
      repeat first [rewrite deactivatePower_powers | rewrite set_power_powers
                   | rewrite R];
      cbn [cooldown deactivated set_duration set_active set_cooldown];
      destruct (PowerName_eqb m n); reflexivity.
  - destruct (Qlt_bool 0 (cooldown (powers pm n))) eqn:Hc.
    + rewrite set_power_powers. destruct (PowerName_eqb m n); reflexivity.
    + destruct (PowerName_eqb m n) eqn:E; trivial.
      apply PowerName_eqb_eq in E. now subst.
Qed.

(** [update] ticks every entry, independently of the others. *)
Lemma update_powers pm d m : powers (update pm d) m = tick d (powers pm m).
Proof.
  unfold update. rewrite updateTimeState_powers. simpl.
  rewrite !update_power_powers. destruct m; reflexivity.
Qed.

Lemma activate_powers n pm m :
  fst (activate n pm) = true ->
  powers (snd (activate n pm)) m
  = if PowerName_eqb m n then activated (powers pm n)
    else if active (powers pm m) then deactivated (powers pm m)
    else powers pm m.
Proof.
  unfold activate, canActivatePower.
  destruct (Qle_bool (cooldown (powers pm n)) 0); simpl; try discriminate.
  destruct (active (powers pm n)) eqn:Ha; simpl; try discriminate.
  intros _. rewrite updateTimeState_powers, set_power_powers.
  rewrite !deactivateAllPowers_powers, Ha.
  destruct (PowerName_eqb m n); reflexivity.
Qed.

Lemma tick_active d p : active (tick d p) = true -> active p = true.
Proof.
  unfold tick. destruct (active p) eqn:Ha; trivial.
  cbv zeta. destruct (Qlt_bool 0 (cooldown p)); cbn; try split_if; cbn;
    congruence.
Qed.

Lemma activate_refused n pm :
  fst (activate n pm) = false -> snd (activate n pm) = pm.
Proof.
  unfold activate. destruct (negb (canActivatePower pm n)); simpl; congruence.
Qed.

Lemma reset_powers pm m :
  powers (reset pm) m
  = mkPower false 0 0 (maxDuration (powers pm m)) (maxCooldown (powers pm m)).
Proof. destruct m; reflexivity. Qed.

End PowerTimers.

Module PowerInvariants.
Import PowerManager PowerOps PowerFacts PowerTimers.

(** *** Mutual exclusion *)


(** A call that switches no flag on keeps the number of active powers. *)
Lemma activeCount_le pm pm' :
  (forall n, active (powers pm' n) = true -> active (powers pm n) = true) ->
  (activeCount pm' <= activeCount pm)%nat.
Proof.
  intros H. pose proof (H freeze) as Hf. pose proof (H slow) as Hs.
  pose proof (H speed) as Hp. unfold activeCount, keys. simpl in *.
  destruct (active (powers_freeze pm')), (active (powers_slow pm')),
    (active (powers_speed pm'));
    repeat match goal with
    | K : true = true -> _ |- _ => rewrite (K eq_refl); clear K
    end;
    destruct (active (powers_freeze pm)), (active (powers_slow pm)),
      (active (powers_speed pm)); simpl; lia.
Qed.

Lemma activeCount_activate n pm :
  fst (activate n pm) = true -> activeCount (snd (activate n pm)) = 1%nat.
Proof.
  intros H. unfold activeCount, keys. simpl.
  change (powers_freeze ?q) with (powers q freeze).
  change (powers_slow ?q) with (powers q slow).
  change (powers_speed ?q) with (powers q speed).
  rewrite !(activate_powers _ _ _ H).
  destruct n; unfold powers; cbn [PowerName_eqb];
    destruct (active (powers_freeze pm)) eqn:Ef,
      (active (powers_slow pm)) eqn:Es, (active (powers_speed pm)) eqn:Ep;
    cbn; rewrite ?Ef, ?Es, ?Ep; reflexivity.
Qed.

Lemma step_atMostOne pm op :
  (activeCount pm <= 1)%nat -> (activeCount (step pm op) <= 1)%nat.
Proof.
  intros H. destruct op as [d | n | n | | ]; simpl.
  - etransitivity; [apply activeCount_le | exact H].
    intros m. rewrite update_powers. apply tick_active.
  - destruct (fst (activate n pm)) eqn:E.
    + rewrite (activeCount_activate _ _ E). lia.
    + now rewrite (activate_refused _ _ E).
  - etransitivity; [apply activeCount_le | exact H].
    intros m. rewrite deactivatePower_powers.
    destruct (PowerName_eqb m n); unfold deactivated; cbn [active set_active set_duration];
      intros; try discriminate; assumption.
  - etransitivity; [apply activeCount_le | exact H].
    intros m. rewrite deactivateAllPowers_powers.
    destruct (active (powers pm m)) eqn:E; unfold deactivated;
      cbn [active set_active set_duration]; intros; congruence.
  - etransitivity; [apply activeCount_le | exact H].
    intros m. rewrite reset_powers. simpl. congruence.
Qed.

Lemma run_atMostOne ops pm :
  (activeCount pm <= 1)%nat -> (activeCount (run ops pm) <= 1)%nat.
Proof.
  revert pm. induction ops as [|op ops IH]; intros pm H; simpl; trivial.
  apply IH, step_atMostOne, H.
Qed.

(** C4: for every interleaving of updates, activation requests (and
    deactivations and resets), started from the constructed manager or from
    one that was just reset, at most one of freeze, slow and speed is
    active. *)
Theorem at_most_one_power_active (ops : list Op) (pm0 : t) :
  atMostOneActive (run ops new) = true /\
  atMostOneActive (run ops (reset pm0)) = true.
Proof.
  unfold atMostOneActive.
  split; apply Nat.leb_le, run_atMostOne, Nat.leb_le; reflexivity.
Qed.

(** *** Activation *)

(** C5: when the activation of A succeeds while B is active, B is inactive
    afterwards with the cooldown it had before the call, and A is active with
    its full duration and its full cooldown. *)
Theorem activation_interrupts_keeping_cooldown (A B : PowerName) (pm : t) :
  fst (activate A pm) = true ->
  active (powers pm B) = true ->
  let pm' := snd (activate A pm) in
  active (powers pm' B) = false /\
  cooldown (powers pm' B) = cooldown (powers pm B) /\
  active (powers pm' A) = true /\
  duration (powers pm' A) = maxDuration (powers pm A) /\
  cooldown (powers pm' A) = maxCooldown (powers pm A).
Proof.
  intros Hok HB pm'. unfold pm'.
  assert (HAB : PowerName_eqb B A = false).
  { destruct (PowerName_eqb B A) eqn:E; trivial.
    apply PowerName_eqb_eq in E. subst B.
    unfold activate, canActivatePower in Hok. rewrite HB in Hok.
    rewrite andb_false_r in Hok. discriminate. }
  rewrite !(activate_powers _ _ _ Hok), HAB, HB.
  replace (PowerName_eqb A A) with true by (destruct A; reflexivity).
  simpl. repeat split.
Qed.

(** Slow is running when Freeze is requested. *)
Lemma activation_interrupts_keeping_cooldown_witness :
  let pm := snd (activateSlow new) in
  let pm' := snd (activateFreeze pm) in
  active (powers pm' slow) = false /\
  cooldown (powers pm' slow) = cooldown (powers pm slow) /\
  active (powers pm' freeze) = true /\
  duration (powers pm' freeze) = maxDuration (powers pm freeze) /\
  cooldown (powers pm' freeze) = maxCooldown (powers pm freeze).
Proof.
  apply (activation_interrupts_keeping_cooldown freeze slow
           (snd (activateSlow new))); reflexivity.
Defined.

(** C6: an activation request returns true exactly when the power is not
    active and its cooldown is <= 0; when it returns false the manager (every
    field of every power, the time state and the multiplier) is unchanged. *)
Theorem activation_succeeds_iff_available (n : PowerName) (pm : t) :
  (fst (activate n pm) = true <->
   active (powers pm n) = false /\ cooldown (powers pm n) <= 0) /\
  (fst (activate n pm) = false -> snd (activate n pm) = pm).
Proof.
  split; [| apply activate_refused].
  unfold activate, canActivatePower.
  destruct (Qle_bool (cooldown (powers pm n)) 0) eqn:Hc;
    destruct (active (powers pm n)); simpl; reflect_tests;
    split; try discriminate; try tauto; intros [? ?];
    try discriminate; try lra.
Qed.

(** Freeze is requested again while it is running. *)
Lemma activation_succeeds_iff_available_witness :
  let pm := snd (activateFreeze new) in
  snd (activateFreeze pm) = pm.
Proof.
  apply (proj2 (activation_succeeds_iff_available freeze
                  (snd (activateFreeze new)))).
  reflexivity.
Defined.

(** *** Timers stay non-negative *)

Lemma tick_nonneg d p : power_nonneg p -> power_nonneg (tick d p).
Proof.
  unfold power_nonneg, tick. intros (Hd & Hc & Hmd & Hmc). cbv zeta.
  destruct (active p); cbn [duration set_duration cooldown set_cooldown
    set_active maxDuration maxCooldown];
    repeat (split_if; cbn [duration set_duration cooldown set_cooldown
      set_active maxDuration maxCooldown active]);
    reflect_tests;
    cbn [duration set_duration cooldown set_cooldown set_active] in *;
    repeat split; try assumption; try lra.
Qed.

Lemma step_nonneg pm op :
  (forall n, power_nonneg (powers pm n)) ->
  forall n, power_nonneg (powers (step pm op) n).
Proof.
  intros H m. destruct op as [d | n | n | | ]; simpl.
  - rewrite update_powers. apply tick_nonneg, H.
  - destruct (fst (activate n pm)) eqn:E.
    + rewrite (activate_powers _ _ _ E).
      destruct (H n) as (_ & _ & Hmd & Hmc). destruct (H m) as (? & ? & ? & ?).
      destruct (PowerName_eqb m n); [| destruct (active (powers pm m))];
        unfold power_nonneg; simpl; repeat split; trivial; lra.
    + rewrite (activate_refused _ _ E). apply H.
  - rewrite deactivatePower_powers. destruct (H n) as (? & ? & ? & ?).
    destruct (PowerName_eqb m n); [| apply H].
    unfold power_nonneg; simpl; repeat split; trivial; lra.
  - rewrite deactivateAllPowers_powers. destruct (H m) as (? & ? & ? & ?).
    destruct (active (powers pm m)); [| apply H].
    unfold power_nonneg; simpl; repeat split; trivial; lra.
  - rewrite reset_powers. destruct (H m) as (? & ? & ? & ?).
    unfold power_nonneg; simpl; repeat split; trivial; lra.
Qed.

Lemma run_nonneg ops pm :
  (forall n, power_nonneg (powers pm n)) ->
  forall n, power_nonneg (powers (run ops pm) n).
Proof.
  revert pm. induction ops as [|op ops IH]; intros pm H; simpl; trivial.
  apply IH, step_nonneg, H.
Qed.

Lemma new_nonneg n : power_nonneg (powers new n).
Proof.
  destruct n; unfold power_nonneg; simpl; repeat split;
    apply Qle_bool_iff; reflexivity.
Qed.

(** C7: for every sequence of update calls with deltaTime >= 0 interleaved
    with activation requests, after each call (after every prefix of the
    sequence) the remaining duration and the remaining cooldown of every power
    are >= 0. *)
Theorem timers_never_negative (ops : list Op) (k : nat) (n : PowerName) :
  Forall nonneg_delta ops ->
  0 <= duration (powers (run (firstn k ops) new) n) /\
  0 <= cooldown (powers (run (firstn k ops) new) n).
Proof.
  intros _.
  destruct (run_nonneg (firstn k ops) new new_nonneg n) as (? & ? & _).
  now split.
Qed.

(** Freeze is requested, 2500 ms pass in two updates, Slow is requested. *)
Lemma timers_never_negative_witness :
  let ops := [Activate freeze; Update 1200; Update 1300; Activate slow] in
  0 <= duration (powers (run (firstn 3 ops) new) freeze) /\
  0 <= cooldown (powers (run (firstn 3 ops) new) freeze).
Proof.
  apply (timers_never_negative
           [Activate freeze; Update 1200; Update 1300; Activate slow] 3 freeze).
  repeat constructor; simpl; lra.
Defined.

End PowerInvariants.

Module FreezeWindow.
Import PowerManager PowerOps PowerFacts PowerTimers.

Lemma elapsed_nonneg ds : Forall (Qle 0) ds -> 0 <= elapsed ds.
Proof.
  induction 1 as [|d ds Hd _ IH]; simpl; [apply Qle_refl | lra].
Qed.

Lemma run_updates_powers ds pm n :
  powers (run (map Update ds) pm) n = ticks ds (powers pm n).
Proof.
  revert pm. induction ds as [|d ds IH]; intros pm; simpl; trivial.
  unfold ticks in *. simpl. rewrite IH, update_powers. reflexivity.
Qed.

(** An inactive power whose cooldown outlasts the updates only cools down. *)
Lemma ticks_cooling ds p :
  active p = false -> Forall (Qle 0) ds -> elapsed ds < cooldown p ->
  active (ticks ds p) = false /\
  cooldown (ticks ds p) == cooldown p - elapsed ds.
Proof.
  revert p. induction ds as [|d ds IH]; intros p Ha Hds Hlt; simpl in *.
  - split; trivial. lra.
  - inversion Hds as [|? ? Hd Hrest]; subst.
    pose proof (elapsed_nonneg ds Hrest) as Hs.
    assert (Ht : active (tick d p) = false /\ cooldown (tick d p) = cooldown p - d).
    { unfold tick. rewrite Ha. cbv zeta.
      destruct (Qlt_bool 0 (cooldown p)) eqn:H1; reflect_tests; [| lra].
      cbn [cooldown set_cooldown].
      destruct (Qle_bool (cooldown p - d) 0) eqn:H2; reflect_tests; [lra |].
      split; [exact Ha | reflexivity]. }
    destruct Ht as [Ha' Hc'].
    unfold ticks in *. simpl.
    destruct (IH (tick d p) Ha' Hrest) as [Hfa Hfc]; [rewrite Hc'; lra |].
    split; trivial. rewrite Hfc, Hc'. lra.
Qed.

(** A running power whose remaining duration is used up exactly by the
    updates is switched off, and its cooldown has run for as long. *)
Lemma ticks_expire ds p :
  active p = true -> 0 < duration p -> duration p < cooldown p ->
  Forall (Qle 0) ds -> elapsed ds == duration p ->
  active (ticks ds p) = false /\
  cooldown (ticks ds p) == cooldown p - duration p.
Proof.
  revert p. induction ds as [|d ds IH]; intros p Ha Hpos Hlt Hds Hsum;
    simpl in *.
  - lra.
  - inversion Hds as [|? ? Hd Hrest]; subst.
    pose proof (elapsed_nonneg ds Hrest) as Hs.
    unfold ticks in *. simpl.
    destruct (Qle_bool (duration p - d) 0) eqn:Hexp; reflect_tests.
    + assert (Ht : active (tick d p) = false /\
                   cooldown (tick d p) = cooldown p - d).
      { unfold tick. rewrite Ha. cbv zeta. cbn [duration set_duration].
        destruct (Qle_bool (duration p - d) 0) eqn:H0; reflect_tests; [| lra].
        cbn [cooldown set_duration set_active set_cooldown].
        destruct (Qlt_bool 0 (cooldown p)) eqn:H1; reflect_tests; [| lra].
        destruct (Qle_bool (cooldown p - d) 0) eqn:H2; reflect_tests; [lra |].
        split; reflexivity. }
      destruct Ht as [Ha' Hc'].
      destruct (ticks_cooling ds (tick d p) Ha' Hrest) as [Hfa Hfc];
        [rewrite Hc'; lra |].
      unfold ticks in *. split; trivial. rewrite Hfc, Hc'. lra.
    + assert (Ht : active (tick d p) = true /\
                   duration (tick d p) = duration p - d /\
                   cooldown (tick d p) = cooldown p - d).
      { unfold tick. rewrite Ha. cbv zeta. cbn [duration set_duration].
        destruct (Qle_bool (duration p - d) 0) eqn:H0; reflect_tests; [lra |].
        cbn [cooldown set_duration set_active set_cooldown].
        destruct (Qlt_bool 0 (cooldown p)) eqn:H1; reflect_tests; [| lra].
        destruct (Qle_bool (cooldown p - d) 0) eqn:H2; reflect_tests; [lra |].
        repeat split; trivial. }
      destruct Ht as (Ha' & Hd' & Hc').
      destruct (IH (tick d p) Ha') as [Hfa Hfc]; try rewrite Hd', ?Hc';
        trivial; try lra.
      split; trivial. rewrite Hfc, Hd', Hc'. lra.
Qed.

(** While less time has passed than the duration, the power keeps running. *)
Lemma ticks_running ds p :
  active p = true -> Forall (Qle 0) ds -> elapsed ds < duration p ->
  active (ticks ds p) = true.
Proof.
  revert p. induction ds as [|d ds IH]; intros p Ha Hds Hlt; simpl in *;
    trivial.
  inversion Hds as [|? ? Hd Hrest]; subst.
  pose proof (elapsed_nonneg ds Hrest) as Hs.
  unfold ticks in *. simpl. apply IH; trivial.
  - unfold tick. rewrite Ha. cbv zeta. cbn [duration set_duration].
    destruct (Qle_bool (duration p - d) 0) eqn:H0; reflect_tests; [lra |].
    cbn [cooldown set_duration]. repeat (split_if; cbn); exact Ha.
  - unfold tick. rewrite Ha. cbv zeta. cbn [duration set_duration].
    destruct (Qle_bool (duration p - d) 0) eqn:H0; reflect_tests; [lra |].
    cbn [cooldown set_duration]. repeat (split_if; cbn); lra.
Qed.

(** The power-manager half of the Freeze scenario: when Freeze is activated
    on a manager with the configured 2000 ms / 5000 ms and exactly 2000 ms of
    updates with deltaTime >= 0 follow, Freeze is switched off, 3000 ms of
    its cooldown remain and the time state is back to NORMAL; while less than
    2000 ms have passed the multiplier is 0. *)
Lemma freeze_expires_after_2000 (pm : t) (ds : list Q) :
  fst (activateFreeze pm) = true ->
  maxDuration (powers pm freeze) = GAME_CONFIG.FREEZE_DURATION ->
  maxCooldown (powers pm freeze) = GAME_CONFIG.FREEZE_COOLDOWN ->
  Forall (Qle 0) ds ->
  let pm' := run (map Update ds) (snd (activateFreeze pm)) in
  (elapsed ds < 2000 -> timeMultiplier pm' = 0) /\
  (elapsed ds == 2000 ->
   active (powers pm' freeze) = false /\
   cooldown (powers pm' freeze) == 3000 /\
   currentTimeState pm' = NORMAL /\ timeMultiplier pm' = 1).
Proof.
  intros Hok Hmd Hmc Hds pm'.
  assert (Hp : powers pm' freeze = ticks ds (activated (powers pm freeze))).
  { unfold pm'. rewrite run_updates_powers.
    unfold activateFreeze in *. now rewrite (activate_powers _ _ _ Hok). }
  assert (Hother : forall n, n <> freeze -> active (powers pm' n) = false).
  { intros n Hn. unfold pm'. rewrite run_updates_powers.
    unfold activateFreeze in *. rewrite (activate_powers _ _ _ Hok).
    assert (E : PowerName_eqb n freeze = false)
      by (destruct n; simpl; congruence).
    rewrite E.
    assert (Hoff : active (if active (powers pm n)
                           then deactivated (powers pm n) else powers pm n)
                   = false) by (destruct (active (powers pm n)) eqn:A; trivial).
    revert Hoff. generalize (if active (powers pm n)
                             then deactivated (powers pm n) else powers pm n).
    clear. induction ds as [|d ds IH]; intros p Hp; simpl; trivial.
    unfold ticks in *. simpl. apply IH.
    destruct (active (tick d p)) eqn:A; trivial.
    apply tick_active in A. congruence. }
  assert (Hder : derived_ok pm').
  { unfold pm'. apply run_derived, activate_established, Hok. }
  assert (Hp0 : active (activated (powers pm freeze)) = true /\
                duration (activated (powers pm freeze)) = 2000 /\
                cooldown (activated (powers pm freeze)) = 5000).
  { unfold activated; cbn [active duration cooldown].
    rewrite Hmd, Hmc. repeat split. }
  destruct Hp0 as (A0 & D0 & C0).
  unfold derived_ok in Hder. split.
  - intros Hlt.
    assert (Ha : active (powers pm' freeze) = true).
    { rewrite Hp. apply ticks_running; trivial. rewrite D0. exact Hlt. }
    rewrite Ha in Hder. simpl in Hder. congruence.
  - intros Hsum.
    destruct (ticks_expire ds (activated (powers pm freeze))) as [Ha Hc];
      trivial; rewrite ?D0, ?C0; try reflexivity; trivial.
    rewrite C0, D0 in Hc. rewrite <- Hp in Ha, Hc.
    rewrite Ha, (Hother slow), (Hother speed) in Hder by discriminate.
    simpl in Hder. repeat split; trivial; try congruence.
Qed.

(** Freeze is requested on the constructed manager; 2000 ms pass in three
    updates. *)
Lemma freeze_expires_after_2000_example :
  let pm' := run (map Update [500; 700; 800]) (snd (activateFreeze new)) in
  active (powers pm' freeze) = false /\
  cooldown (powers pm' freeze) == 3000 /\
  currentTimeState pm' = NORMAL /\ timeMultiplier pm' = 1.
Proof.
  apply (freeze_expires_after_2000 new [500; 700; 800]); try reflexivity.
  repeat constructor; apply Qle_bool_iff; reflexivity.
Qed.

End FreezeWindow.

Module ObstacleMotion.

(** With multiplier 0 an obstacle does not move. *)
Lemma update_frozen o deltaTime :
  Obstacle.x (Obstacle.update o deltaTime (Some 0)) == Obstacle.x o.
Proof.
  unfold Obstacle.update. destruct (negb (Obstacle.isActive o)); simpl;
    [reflexivity | ring].
Qed.

(** Without a multiplier an active obstacle moves at its own speed. *)
Lemma update_default o deltaTime :
  Obstacle.isActive o = true ->
  Obstacle.x (Obstacle.update o deltaTime None)
  == Obstacle.x o - Obstacle.speed o * (deltaTime / 1000).
Proof.
  unfold Obstacle.update. intros ->. simpl. ring.
Qed.

(** [updateObstacles] with multiplier 0 leaves every position as it is. *)
Lemma updateObstacles_frozen m deltaTime :
  Forall2 (fun o o' => Obstacle.x o' == Obstacle.x o)
    (ObstacleManager.obstacles m)
    (ObstacleManager.obstacles
       (ObstacleManager.updateObstacles m deltaTime (Some 0))).
Proof.
  unfold ObstacleManager.updateObstacles. simpl.
  induction (ObstacleManager.obstacles m) as [|o l IH]; simpl; constructor;
    trivial.
  apply update_frozen.
Qed.

End ObstacleMotion.

Module GameScoring.
Import GameOps.

(** The canvas game adds deltaTime/1000 per frame, whatever the powers. *)
Lemma updateScore_plain g deltaTime :
  Game.score (Game.updateScore g deltaTime)
  == Game.score g + deltaTime / 1000.
Proof. unfold Game.updateScore, GAME_CONFIG.SCORE_PER_SECOND. simpl. ring. Qed.

(** The Three.js game doubles the time score while the state is FAST. *)
Lemma updateScore3D_fast pm score deltaTime :
  PowerManager.getCurrentTimeState pm = FAST ->
  Game3D.updateScore (Some pm) score deltaTime
  == score + (deltaTime / 1000) * 1 * 2.
Proof. unfold Game3D.updateScore. intros ->. simpl. reflexivity. Qed.

Lemma updateScore3D_not_fast pm score deltaTime :
  PowerManager.getCurrentTimeState pm <> FAST ->
  Game3D.updateScore (Some pm) score deltaTime
  == score + (deltaTime / 1000) * 1.
Proof.
  unfold Game3D.updateScore, GAME_CONFIG.SCORE_PER_SECOND.
  destruct (PowerManager.getCurrentTimeState pm); simpl; try congruence;
    intros _; ring.
Qed.

(** The Three.js game gives 10 per passed obstacle while the state is FAST
    and 5 otherwise. *)
Lemma passScore3D score :
  Game3D.passScore FAST score 1 == score + 10 /\
  Game3D.passScore NORMAL score 1 == score + 5.
Proof.
  unfold Game3D.passScore, GAME_CONFIG.SCORE_PER_OBSTACLE; simpl.
  split; ring.
Qed.

End GameScoring.


Module ObstacleCounters.
Import ObstacleManager ObstacleOps.

Lemma filterOffscreen_count obs destroyed :
  (snd (filterOffscreen obs destroyed) - destroyed
   = Z.of_nat (length obs) - Z.of_nat (length (fst (filterOffscreen obs destroyed))))%Z.
Proof.
  revert destroyed. induction obs as [|o obs IH]; intros destroyed.
  - simpl. lia.
  - cbn [filterOffscreen]. destruct (Obstacle.isOffScreen o).
    + specialize (IH (destroyed + 1)%Z). cbn [length]. lia.
    + specialize (IH destroyed).
      destruct (filterOffscreen obs destroyed) as [kept d'].
      cbn [fst snd length] in *. lia.
Qed.

Lemma markPassed_length obs playerX n :
  length (fst (markPassed obs playerX n)) = length obs.
Proof.
  revert n. induction obs as [|o obs IH]; intros n; simpl; trivial.
  destruct (Obstacle.hasPlayerPassed o playerX).
  - specialize (IH (n + 1)%Z). destruct (markPassed obs playerX (n + 1)).
    simpl in *. now rewrite IH.
  - specialize (IH n). destruct (markPassed obs playerX n).
    simpl in *. now rewrite IH.
Qed.

Lemma spawnObstacle_counters rnd m :
  totalSpawned (spawnObstacle rnd m) = (totalSpawned m + 1)%Z /\
  totalDestroyed (spawnObstacle rnd m) = totalDestroyed m /\
  length (obstacles (spawnObstacle rnd m)) = S (length (obstacles m)).
Proof.
  unfold spawnObstacle. simpl. repeat split.
  rewrite length_app. simpl. lia.
Qed.

Lemma removeOffscreenObstacles_counters m :
  totalSpawned (removeOffscreenObstacles m) = totalSpawned m /\
  (totalDestroyed (removeOffscreenObstacles m) - totalDestroyed m
   = Z.of_nat (length (obstacles m))
     - Z.of_nat (length (obstacles (removeOffscreenObstacles m))))%Z.
Proof.
  unfold removeOffscreenObstacles.
  pose proof (filterOffscreen_count (obstacles m) (totalDestroyed m)) as H.
  destruct (filterOffscreen (obstacles m) (totalDestroyed m)) as [kept d'].
  simpl in *. split; trivial.
Qed.

Lemma spawnObstacle_ok rnd m : counters_ok m -> counters_ok (spawnObstacle rnd m).
Proof.
  unfold counters_ok. intros H.
  destruct (spawnObstacle_counters rnd m) as (-> & -> & ->). lia.
Qed.

Lemma removeOffscreenObstacles_ok m :
  counters_ok m -> counters_ok (removeOffscreenObstacles m).
Proof.
  unfold counters_ok. intros H.
  destruct (removeOffscreenObstacles_counters m) as (-> & H'). lia.
Qed.

Lemma handleSpawning_ok rnd m timeElapsed :
  counters_ok m -> counters_ok (handleSpawning rnd m timeElapsed).
Proof.
  intros H. unfold handleSpawning.
  destruct (Qle_bool (spawnRate m) (timeElapsed - lastSpawnTime m)); trivial.
  apply (spawnObstacle_ok rnd) in H. exact H.
Qed.

Lemma updateObstacles_ok m deltaTime speedMultiplier :
  counters_ok m -> counters_ok (updateObstacles m deltaTime speedMultiplier).
Proof.
  unfold counters_ok, updateObstacles. simpl. now rewrite length_map.
Qed.

Lemma update_ok rnd m deltaTime timeElapsed level speedMultiplier :
  counters_ok m ->
  counters_ok (update rnd m deltaTime timeElapsed level speedMultiplier).
Proof.
  intros H. unfold update.
  apply removeOffscreenObstacles_ok, updateObstacles_ok, handleSpawning_ok.
  exact H.
Qed.

Lemma checkObstaclesPassed_ok m playerX :
  counters_ok m -> counters_ok (snd (checkObstaclesPassed m playerX)).
Proof.
  unfold counters_ok, checkObstaclesPassed. intros H.
  pose proof (markPassed_length (obstacles m) playerX 0) as L.
  destruct (markPassed (obstacles m) playerX 0) as [obs n].
  simpl in *. now rewrite L.
Qed.

Lemma new_ok : counters_ok new.
Proof. reflexivity. Qed.

Lemma step_ok m op : counters_ok m -> counters_ok (step m op).
Proof.
  destruct op; simpl; intros H.
  - now apply update_ok.
  - now apply spawnObstacle_ok.
  - now apply removeOffscreenObstacles_ok.
  - now apply checkObstaclesPassed_ok.
  - reflexivity.
Qed.

(** C10: after every sequence of ObstacleManager calls (update,
    spawnObstacle, removeOffscreenObstacles, checkObstaclesPassed, reset)
    from construction, totalSpawned - totalDestroyed is the number of
    obstacles in the collection; a spawn adds one to totalSpawned and one
    obstacle, a removal adds to totalDestroyed the number of obstacles it
    removes, and reset leaves both counters at zero and the collection
    empty. *)
Theorem spawned_minus_destroyed_is_count (ops : list Op) (rnd : Random) :
  let m := run ops new in
  counters_ok m /\
  (totalSpawned (spawnObstacle rnd m) = totalSpawned m + 1)%Z /\
  length (obstacles (spawnObstacle rnd m)) = S (length (obstacles m)) /\
  (totalDestroyed (removeOffscreenObstacles m) - totalDestroyed m
   = Z.of_nat (length (obstacles m))
     - Z.of_nat (length (obstacles (removeOffscreenObstacles m))))%Z /\
  totalSpawned (reset m) = 0%Z /\ totalDestroyed (reset m) = 0%Z /\
  obstacles (reset m) = [].
Proof.
  intros m.
  assert (H : counters_ok m).
  { unfold m. generalize new_ok. generalize new.
    induction ops as [|op ops IH]; intros m0 H0; simpl; trivial.
    apply IH, step_ok, H0. }
  destruct (spawnObstacle_counters rnd m) as (? & _ & ?).
  destruct (removeOffscreenObstacles_counters m) as (_ & ?).
  repeat split; trivial.
Qed.

End ObstacleCounters.

Module GameFacts.
Import Game GameOps.

Lemma update_not_playing rnd g d : state g <> PLAYING -> update rnd g d = g.
Proof. unfold update. destruct (state g); simpl; congruence. Qed.

(** What a playing-state [update] does to the clock, the level and the
    score. *)
Lemma update_playing rnd g d :
  state g = PLAYING ->
  timeElapsed (update rnd g d) = timeElapsed g + d /\
  difficultyLevel (update rnd g d)
  = difficultyLevel (updateDifficulty (set_timeElapsed g (timeElapsed g + d))) /\
  exists passed : Z,
    (0 <= passed)%Z /\
    score (update rnd g d)
    == score g + d / 1000 + inject_Z passed * GAME_CONFIG.SCORE_PER_OBSTACLE.
Proof.
  intros Hs. unfold update. rewrite Hs. cbn [GAME_STATES_eqb negb]. cbv zeta.
  assert (T : timeElapsed (updateDifficulty (set_timeElapsed g (timeElapsed g + d)))
              = timeElapsed g + d)
    by (unfold updateDifficulty; split_if; reflexivity).
  assert (S : score (updateDifficulty (set_timeElapsed g (timeElapsed g + d)))
              = score g)
    by (unfold updateDifficulty; split_if; reflexivity).
  match goal with
  | |- context [match ?c with Some _ => _ | None => _ end] => destruct c
  end.
  - split; [exact T | split; [reflexivity |]].
    exists 0%Z. split; [lia |].
    cbn [score handleGameOver set_state set_obstacleManager set_player
           updateScore set_score].
    rewrite S. unfold GAME_CONFIG.SCORE_PER_SECOND. ring.
  - match goal with
    | |- context [let (_, _) := ?c in _] => destruct c as [passed m]
    end.
    destruct (0 <? passed)%Z eqn:Hp.
    + split; [exact T | split; [reflexivity |]].
      exists passed. split; [apply Z.ltb_lt in Hp; lia |].
      cbn [score set_obstacleManager set_player updateScore set_score].
      rewrite S. unfold GAME_CONFIG.SCORE_PER_SECOND. ring.
    + split; [exact T | split; [reflexivity |]].
      exists 0%Z. split; [lia |].
      cbn [score set_obstacleManager set_player updateScore set_score].
      rewrite S. unfold GAME_CONFIG.SCORE_PER_SECOND. ring.
Qed.

(** [update] neither reads nor writes the power manager: the frame is the
    same whatever manager is installed, and the manager is handed on as it
    was. *)
Lemma update_powerManager_blind rnd g d pm :
  update rnd (set_powerManager g pm) d = set_powerManager (update rnd g d) pm.
Proof.
  destruct g as [st sc te lv run pl om pm0 lt dt].
  unfold update, set_powerManager. cbn [state]. destruct st; try reflexivity.
  unfold updateScore, updateDifficulty, handleGameOver.
  cbn -[ObstacleManager.update ObstacleManager.checkCollisions
        ObstacleManager.checkObstaclesPassed Player.update
        Qplus Qdiv Qmult Qfloor Z.ltb inject_Z].
  destruct (lv <? _)%Z;
    cbn -[ObstacleManager.update ObstacleManager.checkCollisions
          ObstacleManager.checkObstaclesPassed Player.update
          Qplus Qdiv Qmult Qfloor Z.ltb inject_Z];
    (match goal with
     | |- context [match ?c with Some _ => _ | None => _ end] => destruct c
     end; [reflexivity |]);
    (match goal with
     | |- context [let (_, _) := ?c in _] => destruct c as [passed m]
     end);
    cbn -[Qplus Qdiv Qmult Qfloor Z.ltb inject_Z];
    destruct (0 <? passed)%Z; reflexivity.
Qed.

Lemma update_powerManager rnd g d :
  powerManager (update rnd g d) = powerManager g.
Proof.
  replace g with (set_powerManager g (powerManager g)) at 1
    by (destruct g; reflexivity).
  rewrite update_powerManager_blind. reflexivity.
Qed.

End GameFacts.

Module FrameFacts.
Import Game GameOps GameFacts.

(** The state and the score after a playing-state [update], in terms of the
    stages of the frame: a collision ends the game and only the time score
    is added; otherwise the hazards counted by [checkObstaclesPassed] add
    SCORE_PER_OBSTACLE each. *)
Lemma update_exact rnd g d :
  state g = PLAYING ->
  state (update rnd g d)
  = match collision_after rnd g d with
    | Some _ => GAME_OVER
    | None => PLAYING
    end /\
  score (update rnd g d)
  = match collision_after rnd g d with
    | Some _ => score g + d / 1000 * GAME_CONFIG.SCORE_PER_SECOND
    | None =>
        if (0 <? hazards_passed rnd g d)%Z
        then score g + d / 1000 * GAME_CONFIG.SCORE_PER_SECOND
             + inject_Z (hazards_passed rnd g d)
               * GAME_CONFIG.SCORE_PER_OBSTACLE
        else score g + d / 1000 * GAME_CONFIG.SCORE_PER_SECOND
    end.
Proof.
  destruct g as [st sc te lv run pl om pm0 lt dt]. cbn [state]. intros ->.
  unfold collision_after, hazards_passed, obstacles_after, player_after,
    level_after, update, updateScore, updateDifficulty, handleGameOver.
  cbn -[ObstacleManager.update ObstacleManager.checkCollisions
        ObstacleManager.checkObstaclesPassed Player.update
        Qplus Qdiv Qmult Qfloor Z.ltb inject_Z].
  destruct (lv <? _)%Z;
    cbn -[ObstacleManager.update ObstacleManager.checkCollisions
          ObstacleManager.checkObstaclesPassed Player.update
          Qplus Qdiv Qmult Qfloor Z.ltb inject_Z];
    (match goal with
     | |- context [match ?c with Some _ => _ | None => _ end] => destruct c
     end; [split; reflexivity |]);
    (match goal with
     | |- context [let (_, _) := ?c in _] => destruct c as [passed m]
     end);
    cbn -[Qplus Qdiv Qmult Qfloor Z.ltb inject_Z];
    destruct (0 <? passed)%Z; split; reflexivity.
Qed.

(** No handler and no frame of the canvas game creates a power manager. *)
Lemma play_powerManager events :
  powerManager (GameEvents.play events new) = None.
Proof.
  unfold GameEvents.play.
  assert (G : forall g, powerManager g = None ->
                        powerManager (fold_left GameEvents.handle events g) = None).
  { induction events as [|e es IH]; intros g Hg; trivial.
    cbn [fold_left]. apply IH.
    destruct e as [now k | rnd c]; cbn [GameEvents.handle].
    - unfold handleKeyPress, request, restart, startGame.
      destruct k; repeat split_if; trivial;
        destruct (state g); rewrite ?Hg; trivial.
    - unfold gameLoop. split_if; trivial.
      rewrite update_powerManager. exact Hg. }
  apply G. reflexivity.
Qed.

End FrameFacts.

Module Difficulty.
Import Game GameOps GameFacts.

Lemma interval_monotone a b : a <= b -> a / 20000 <= b / 20000.
Proof.
  intros H. unfold Qdiv. apply Qmult_le_compat_r; trivial.
  apply Qle_bool_iff. reflexivity.
Qed.

(** One frame with deltaTime >= 0 keeps the level at the floor and never
    lowers it. *)
Lemma frame_level g f :
  0 <= fst f -> level_ok g ->
  level_ok (frame g f) /\ (difficultyLevel g <= difficultyLevel (frame g f))%Z.
Proof.
  destruct f as [d rnd]. unfold frame, level_ok. cbn [fst snd].
  intros Hd Hg.
  destruct (state g) eqn:Hs;
    try (rewrite update_not_playing by congruence; split; [exact Hg | lia]).
  destruct (update_playing rnd g d Hs) as (Ht & Hl & _).
  rewrite Ht, Hl. clear Ht Hl.
  assert (Hmono : (Qfloor (timeElapsed g / 20000)
                   <= Qfloor ((timeElapsed g + d) / 20000))%Z).
  { apply Qfloor_resp_le, interval_monotone. lra. }
  unfold updateDifficulty, GAME_CONFIG.DIFFICULTY_INTERVAL.
  cbn [timeElapsed difficultyLevel set_timeElapsed].
  destruct (difficultyLevel g <? Qfloor ((timeElapsed g + d) / 20000))%Z eqn:E;
    cbn [difficultyLevel set_difficultyLevel set_timeElapsed].
  - apply Z.ltb_lt in E. split; lia.
  - apply Z.ltb_ge in E. split; lia.
Qed.

Lemma run_level frames : forall (k : nat) (g : t),
  Forall (fun f : Frame => 0 <= fst f) frames -> level_ok g ->
  level_ok (run (firstn k frames) g) /\
  (difficultyLevel (run (firstn k frames) g)
   <= difficultyLevel (run (firstn (S k) frames) g))%Z.
Proof.
  induction frames as [|f fs IH]; intros k g Hfs Hg.
  - rewrite !firstn_nil. simpl. split; [exact Hg | lia].
  - inversion Hfs as [|? ? Hf Hrest]; subst.
    destruct (frame_level g f Hf Hg) as [Hg' Hle].
    destruct k as [|k].
    + simpl. split; [exact Hg | exact Hle].
    + change (firstn (S (S k)) (f :: fs)) with (f :: firstn (S k) fs).
      change (firstn (S k) (f :: fs)) with (f :: firstn k fs).
      simpl. apply IH; trivial.
Qed.

(** C9: after every frame of a run of updates with deltaTime >= 0 that
    follows [startGame] or [restart], the difficulty level is
    floor(timeElapsed / 20000), and it never decreases from one frame to the
    next. *)
Theorem difficulty_level_is_floor
  (now : Q) (g0 : t) (frames : list Frame) (k : nat) :
  Forall (fun f : Frame => 0 <= fst f) frames ->
  forall start, start = startGame now g0 \/ start = restart now g0 ->
  let g := run (firstn k frames) start in
  let g' := run (firstn (S k) frames) start in
  difficultyLevel g = Qfloor (timeElapsed g / 20000) /\
  (difficultyLevel g <= difficultyLevel g')%Z.
Proof.
  intros Hfs start Hstart g g'.
  apply run_level; trivial.
  destruct Hstart; subst start; reflexivity.
Qed.

(** Three frames take the clock over the first interval. *)
Lemma difficulty_level_is_floor_witness :
  let frames := [(12000, Scenario.rnd); (9000, Scenario.rnd); (500, Scenario.rnd)] in
  let g := run (firstn 2 frames) (startGame 0 new) in
  let g' := run (firstn 3 frames) (startGame 0 new) in
  difficultyLevel g = Qfloor (timeElapsed g / 20000) /\
  (difficultyLevel g <= difficultyLevel g')%Z.
Proof.
  apply (difficulty_level_is_floor 0 new
           [(12000, Scenario.rnd); (9000, Scenario.rnd); (500, Scenario.rnd)] 2).
  - repeat constructor; apply Qle_bool_iff; reflexivity.
  - left. reflexivity.
Defined.

End Difficulty.

Module NegativeDelta.
Import PowerManager PowerOps PowerTimers GameFacts.

(** A tick with a negative deltaTime, on an entry whose duration is not
    negative. *)
Lemma tick_negative d p :
  d < 0 -> 0 <= duration p ->
  tick d p
  = mkPower (active p)
      (if Qlt_bool 0 (cooldown p) then cooldown p - d else cooldown p)
      (if active p then duration p - d else duration p)
      (maxDuration p) (maxCooldown p).
Proof.
  destruct p as [a c du md mc]. unfold tick. cbn. intros Hneg Hdur.
  destruct a; cbn.
  - destruct (Qle_bool (du - d) 0) eqn:H0; reflect_tests;
      [exfalso; lra |].
    cbn. destruct (Qlt_bool 0 c) eqn:H1; cbn; trivial.
    destruct (Qle_bool (c - d) 0) eqn:H2; reflect_tests;
      [exfalso; lra | reflexivity].
  - destruct (Qlt_bool 0 c) eqn:H1; cbn; trivial.
    destruct (Qle_bool (c - d) 0) eqn:H2; reflect_tests;
      [exfalso; lra | reflexivity].
Qed.

(** C8, as the code has it: a negative deltaTime is not clamped.  On every
    manager reached from construction, [PowerManager.update] keeps every
    active flag, lengthens the remaining duration of an active power and
    every positive cooldown by -deltaTime, and leaves the other timers
    alone.  A playing-state [Game.update] adds deltaTime to timeElapsed and
    (deltaTime / 1000) * 1 to the score, and then, unless a collision ends
    the game in that frame, 5 for each hazard that [checkObstaclesPassed]
    counts in it. *)
Theorem negative_delta_is_propagated
  (ops : list Op) (n : PowerName) (rnd : Random) (g : Game.t) (deltaTime : Q) :
  deltaTime < 0 ->
  Game.state g = PLAYING ->
  let p := powers (run ops new) n in
  let p' := powers (update (run ops new) deltaTime) n in
  active p' = active p /\
  duration p' = (if active p then duration p - deltaTime else duration p) /\
  cooldown p'
  = (if Qlt_bool 0 (cooldown p) then cooldown p - deltaTime else cooldown p) /\
  Game.timeElapsed (Game.update rnd g deltaTime)
  = Game.timeElapsed g + deltaTime /\
  Game.score (Game.update rnd g deltaTime)
  = match GameOps.collision_after rnd g deltaTime with
    | Some _ => Game.score g + deltaTime / 1000 * 1
    | None =>
        if (0 <? GameOps.hazards_passed rnd g deltaTime)%Z
        then Game.score g + deltaTime / 1000 * 1
             + inject_Z (GameOps.hazards_passed rnd g deltaTime) * 5
        else Game.score g + deltaTime / 1000 * 1
    end.
Proof.
  intros Hneg Hs p p'. unfold p', p.
  destruct (PowerInvariants.run_nonneg ops new PowerInvariants.new_nonneg n)
    as (Hdur & _).
  rewrite update_powers, (tick_negative _ _ Hneg Hdur).
  destruct (update_playing rnd g deltaTime Hs) as (Ht & _).
  destruct (FrameFacts.update_exact rnd g deltaTime Hs) as (_ & Hsc).
  repeat split; trivial.
Qed.

(** Freeze has just been activated and the game has just been started when
    a frame of -1000 ms arrives. *)
Lemma negative_delta_is_propagated_witness :
  let p := powers (run [Activate freeze] new) freeze in
  let p' := powers (update (run [Activate freeze] new) (-1000)) freeze in
  active p' = active p /\
  duration p' = (if active p then duration p - (-1000) else duration p) /\
  cooldown p'
  = (if Qlt_bool 0 (cooldown p) then cooldown p - (-1000) else cooldown p) /\
  Game.timeElapsed (Game.update Scenario.rnd Scenario.started (-1000))
  = Game.timeElapsed Scenario.started + (-1000) /\
  Game.score (Game.update Scenario.rnd Scenario.started (-1000))
  = match GameOps.collision_after Scenario.rnd Scenario.started (-1000) with
    | Some _ => Game.score Scenario.started + (-1000) / 1000 * 1
    | None =>
        if (0 <? GameOps.hazards_passed Scenario.rnd Scenario.started (-1000))%Z
        then Game.score Scenario.started + (-1000) / 1000 * 1
             + inject_Z (GameOps.hazards_passed Scenario.rnd Scenario.started
                           (-1000)) * 5
        else Game.score Scenario.started + (-1000) / 1000 * 1
    end.
Proof.
  apply (negative_delta_is_propagated [Activate freeze] freeze
           Scenario.rnd Scenario.started (-1000)); reflexivity.
Defined.

(** C8 fails as stated: with Freeze running and the game playing, a frame
    of -1000 ms and a frame of 0 ms leave different durations, cooldowns,
    elapsed times and scores. *)
Lemma negative_delta_not_clamped :
  let pm := snd (activateFreeze new) in
  ~ duration (powers (update pm (-1000)) freeze)
    == duration (powers (update pm 0) freeze) /\
  ~ cooldown (powers (update pm (-1000)) freeze)
    == cooldown (powers (update pm 0) freeze) /\
  ~ Game.timeElapsed (Game.update Scenario.rnd Scenario.started (-1000))
    == Game.timeElapsed (Game.update Scenario.rnd Scenario.started 0) /\
  ~ Game.score (Game.update Scenario.rnd Scenario.started (-1000))
    == Game.score (Game.update Scenario.rnd Scenario.started 0).
Proof.
  repeat split; vm_compute; discriminate.
Qed.

End NegativeDelta.

(** * Further properties of the code *)

Module UtilsFacts.

Lemma checkCollision_swap (rect1 rect2 : Rect) :
  checkCollision rect1 rect2 = checkCollision rect2 rect1.
Proof.
  unfold checkCollision.
  destruct (Qlt_bool (rect_x rect1) (rect_x rect2 + rect_width rect2)),
    (Qlt_bool (rect_x rect2) (rect_x rect1 + rect_width rect1)),
    (Qlt_bool (rect_y rect1) (rect_y rect2 + rect_height rect2)),
    (Qlt_bool (rect_y rect2) (rect_y rect1 + rect_height rect1)); reflexivity.
Qed.

(** Collision does not depend on which rectangle is named first. *)
Theorem checkCollision_sym (rect1 rect2 : Rect) :
  checkCollision rect1 rect2 = checkCollision rect2 rect1.
Proof. apply checkCollision_swap. Qed.

(** Rectangles that are apart, or that only touch along an edge, do not
    collide. *)
Theorem checkCollision_touching (rect1 rect2 : Rect) :
  rect_x rect1 + rect_width rect1 <= rect_x rect2 \/
  rect_y rect1 + rect_height rect1 <= rect_y rect2 ->
  checkCollision rect1 rect2 = false /\ checkCollision rect2 rect1 = false.
Proof.
  intros H. rewrite (checkCollision_swap rect2 rect1).
  assert (G : checkCollision rect1 rect2 = false); [| now split].
  unfold checkCollision.
  destruct H as [H | H]; apply Qlt_bool_false_iff in H; rewrite H;
    rewrite ?andb_false_r; reflexivity.
Qed.

(** The player's box and a debris box that starts where the player's box
    ends. *)
Lemma checkCollision_touching_witness :
  checkCollision (mkRect 100 480 40 60) (mkRect 140 480 50 50) = false /\
  checkCollision (mkRect 140 480 50 50) (mkRect 100 480 40 60) = false.
Proof.
  apply (checkCollision_touching (mkRect 100 480 40 60) (mkRect 140 480 50 50)).
  left. apply Qle_bool_iff. reflexivity.
Defined.

(** A rectangle collides with a rectangle at the same place and of the same
    size exactly when its width and height are positive. *)
Theorem checkCollision_self (rect : Rect) :
  checkCollision rect rect = true <->
  0 < rect_width rect /\ 0 < rect_height rect.
Proof.
  unfold checkCollision. rewrite !andb_true_iff, !Qlt_bool_iff.
  split; [intros [[[? ?] ?] ?] | intros [? ?]; repeat split]; try split; lra.
Qed.

Lemma clamp_interval (value min max : Q) :
  min <= max ->
  min <= clamp value min max /\ clamp value min max <= max /\
  (min <= value -> value <= max -> clamp value min max == value).
Proof.
  intros H. unfold clamp.
  destruct (Q.max_spec value min) as [[H1 E1] | [H1 E1]];
    destruct (Q.min_spec (Qmax value min) max) as [[H2 E2] | [H2 E2]];
    rewrite E2 in *; rewrite ?E1 in *; repeat split; intros; try lra.
Qed.

(** [clamp] with min <= max returns a value of the interval, and returns a
    value of the interval unchanged. *)
Theorem clamp_bounds (value min max : Q) :
  min <= max ->
  min <= clamp value min max /\ clamp value min max <= max /\
  (min <= value -> value <= max -> clamp value min max == value).
Proof. apply clamp_interval. Qed.

Lemma clamp_bounds_witness :
  50 <= clamp 1300 50 1110 /\ clamp 1300 50 1110 <= 1110 /\
  (50 <= 1300 -> 1300 <= 1110 -> clamp 1300 50 1110 == 1300).
Proof.
  apply (clamp_bounds 1300 50 1110). apply Qle_bool_iff. reflexivity.
Defined.

(** With min > max, [clamp] returns max whatever the value. *)
Theorem clamp_crossed (value min max : Q) :
  max < min -> clamp value min max == max.
Proof.
  intros H. unfold clamp.
  destruct (Q.max_spec value min) as [[H1 E1] | [H1 E1]];
    destruct (Q.min_spec (Qmax value min) max) as [[H2 E2] | [H2 E2]];
    rewrite E2 in *; rewrite ?E1 in *; lra.
Qed.

Lemma clamp_crossed_witness : clamp 7 10 5 == 5.
Proof. apply (clamp_crossed 7 10 5). reflexivity. Defined.

Lemma randomIntBetween_between (random : Q) (min max : Z) :
  0 <= random -> random < 1 -> (min <= max)%Z ->
  (min <= randomIntBetween random min max <= max)%Z.
Proof.
  intros H0 H1 Hmm. unfold randomIntBetween.
  set (k := (max - min + 1)%Z).
  assert (Hk : 0 < inject_Z k).
  { change 0 with (inject_Z 0). rewrite <- Zlt_Qlt. unfold k. lia. }
  assert (Hlo : (0 <= Qfloor (random * inject_Z k))%Z).
  { change 0%Z with (Qfloor 0). apply Qfloor_resp_le. nra. }
  assert (Hhi : (Qfloor (random * inject_Z k) < k)%Z).
  { rewrite Zlt_Qlt. apply Qle_lt_trans with (random * inject_Z k).
    - apply Qfloor_le.
    - nra. }
  unfold k in *. lia.
Qed.

(** For a draw in [0, 1) and min <= max, [randomIntBetween] returns an
    integer between min and max, both included. *)
Theorem randomIntBetween_range (random : Q) (min max : Z) :
  0 <= random -> random < 1 -> (min <= max)%Z ->
  (min <= randomIntBetween random min max <= max)%Z.
Proof. apply randomIntBetween_between. Qed.

Lemma randomIntBetween_range_witness :
  (0 <= randomIntBetween (999 # 1000) 0 2 <= 2)%Z.
Proof.
  apply (randomIntBetween_range (999 # 1000) 0 2); try reflexivity.
  - apply Qle_bool_iff. reflexivity.
  - lia.
Defined.

(** [lerp] returns start at t = 0 and end at t = 1, and for t between 0 and
    1 its value lies between start and end. *)
Theorem lerp_between (start end_ t : Q) :
  lerp start end_ 0 == start /\ lerp start end_ 1 == end_ /\
  (0 <= t -> t <= 1 ->
   Qmin start end_ <= lerp start end_ t /\
   lerp start end_ t <= Qmax start end_).
Proof.
  unfold lerp. repeat split; try ring;
    destruct (Q.max_spec start end_) as [[H1 E1] | [H1 E1]];
    destruct (Q.min_spec start end_) as [[H2 E2] | [H2 E2]];
    rewrite ?E1, ?E2; nra.
Qed.

Lemma lerp_between_witness :
  Qmin 0 4 <= lerp 0 4 (1 # 4) /\ lerp 0 4 (1 # 4) <= Qmax 0 4.
Proof.
  apply (proj2 (proj2 (lerp_between 0 4 (1 # 4))));
    apply Qle_bool_iff; reflexivity.
Defined.

(** [updateParticles] keeps, in their order, exactly the particles whose
    life is longer than deltaTime, moved by their velocity; every particle
    left has life > 0. *)
Theorem updateParticles_survivors (particles : list Particle) (deltaTime : Q) :
  updateParticles particles deltaTime
  = map (moveParticle deltaTime)
        (filter (fun p => Qlt_bool deltaTime (particle_life p)) particles) /\
  Forall (fun p => 0 < particle_life p) (updateParticles particles deltaTime).
Proof.
  unfold updateParticles.
  induction particles as [|p ps [IH1 IH2]]; [split; constructor |].
  cbn [fold_right filter].
  change (particle_life (moveParticle deltaTime p))
    with (particle_life p - deltaTime).
  destruct (Qle_bool (particle_life p - deltaTime) 0) eqn:E;
    destruct (Qlt_bool deltaTime (particle_life p)) eqn:F; reflect_tests;
    try (exfalso; lra).
  - split; trivial.
  - cbn [map]. split; [now rewrite IH1 | constructor; trivial].
Qed.

End UtilsFacts.

Module PerformanceFacts.
Import PerformanceMonitor.

Lemma update_undefined m currentTime :
  lastFpsUpdate m = None ->
  lastFpsUpdate (update m currentTime) = None /\
  fps (update m currentTime) = fps m /\
  frameCount (update m currentTime) = (frameCount m + 1)%Z /\
  frameTime (update m currentTime) = currentTime - lastTime m /\
  lastTime (update m currentTime) = currentTime.
Proof. unfold update. intros ->. repeat split. Qed.

(** Because the constructor leaves [lastFpsUpdate] undefined, the frame
    rate is never computed: after any sequence of [update] calls on a new
    monitor [getFPS()] is 0 and [frameCount] has counted every call. *)
Theorem fps_is_never_computed (times : list Q) :
  let m := fold_left update times new in
  getFPS m = 0%Z /\ lastFpsUpdate m = None /\
  frameCount m = Z.of_nat (length times).
Proof.
  cbv zeta. unfold getFPS.
  assert (G : forall m0,
             lastFpsUpdate m0 = None ->
             fps (fold_left update times m0) = fps m0 /\
             lastFpsUpdate (fold_left update times m0) = None /\
             frameCount (fold_left update times m0)
             = (frameCount m0 + Z.of_nat (length times))%Z).
  { induction times as [|c cs IH]; intros m0 H0.
    - simpl. repeat split; trivial. lia.
    - destruct (update_undefined m0 c H0) as (U1 & U2 & U3 & _).
      destruct (IH (update m0 c) U1) as (I1 & I2 & I3).
      cbn [fold_left length]. rewrite I1, I3, U2, U3.
      repeat split; trivial. lia. }
  destruct (G new eq_refl) as (G1 & G2 & G3).
  rewrite G1, G3. repeat split; trivial.
Qed.

Lemma update_times m currentTime :
  frameTime (update m currentTime) = currentTime - lastTime m /\
  lastTime (update m currentTime) = currentTime.
Proof.
  unfold update. destruct (lastFpsUpdate m); [split_if |]; split; reflexivity.
Qed.

(** [getFrameTime()] after two updates is the time between them. *)
Theorem frameTime_is_difference (m : t) (t1 t2 : Q) :
  getFrameTime (update (update m t1) t2) = t2 - t1.
Proof.
  unfold getFrameTime.
  destruct (update_times (update m t1) t2) as [-> _].
  destruct (update_times m t1) as [_ ->]. reflexivity.
Qed.

End PerformanceFacts.

Module PlayerFacts.

(** Whatever updates an active player of the configured width receives
    (any deltaTime, any multiplier), it stays on the canvas with a margin of
    50: 50 <= x and x + width <= CANVAS_WIDTH - 50. *)
Theorem player_stays_on_canvas (updates : list (Q * option Q)) :
  let p :=
    fold_left (fun p u => Player.update p (fst u) (snd u)) updates Player.new in
  50 <= Player.x p /\ Player.x p + Player.width p <= GAME_CONFIG.CANVAS_WIDTH - 50.
Proof.
  cbv zeta.
  assert (G : forall p0,
             Player.width p0 = 40 -> 50 <= Player.x p0 -> Player.x p0 <= 1110 ->
             let p :=
               fold_left (fun p u => Player.update p (fst u) (snd u)) updates p0 in
             Player.width p = 40 /\ 50 <= Player.x p /\ Player.x p <= 1110).
  { induction updates as [|[d mult] us IH]; intros p0 Hw Hlo Hhi.
    - simpl. auto.
    - cbn [fold_left fst snd]. apply IH.
      + unfold Player.update. destruct (negb (Player.isActive p0)); trivial.
      + unfold Player.update. destruct (negb (Player.isActive p0)); trivial.
        cbn [Player.x]. rewrite Hw.
        apply UtilsFacts.clamp_interval. apply Qle_bool_iff. reflexivity.
      + unfold Player.update. destruct (negb (Player.isActive p0)); trivial.
        cbn [Player.x]. rewrite Hw.
        apply Qle_trans with (GAME_CONFIG.CANVAS_WIDTH - 40 - 50).
        * apply UtilsFacts.clamp_interval. apply Qle_bool_iff. reflexivity.
        * apply Qle_bool_iff. reflexivity. }
  destruct (G Player.new) as (Hw & Hlo & Hhi); try reflexivity;
    try (apply Qle_bool_iff; reflexivity).
  split; trivial. rewrite Hw. unfold GAME_CONFIG.CANVAS_WIDTH. lra.
Qed.

End PlayerFacts.

Module ObstacleFacts.
Import ObstacleManager ObstacleOps.

(** *** The configuration fields *)

Lemma filterOffscreen_filter obs destroyed :
  filterOffscreen obs destroyed
  = (filter (fun o => negb (Obstacle.isOffScreen o)) obs,
     (destroyed + Z.of_nat (length (filter Obstacle.isOffScreen obs)))%Z).
Proof.
  revert destroyed. induction obs as [|o obs IH]; intros destroyed.
  - simpl. f_equal. lia.
  - cbn [filterOffscreen filter]. destruct (Obstacle.isOffScreen o); simpl.
    + rewrite IH. f_equal. lia.
    + rewrite IH. reflexivity.
Qed.

Lemma step_config m op :
  minSpawnGap (step m op) = minSpawnGap m /\
  baseSpawnRate (step m op) = baseSpawnRate m /\
  baseSpeed (step m op) = baseSpeed m.
Proof.
  destruct op; simpl.
  - unfold update, removeOffscreenObstacles. rewrite filterOffscreen_filter.
    unfold updateObstacles, handleSpawning, updateSpawnRate. simpl.
    split_if; repeat split.
  - repeat split.
  - unfold removeOffscreenObstacles. rewrite filterOffscreen_filter.
    repeat split.
  - unfold checkObstaclesPassed.
    destruct (markPassed (obstacles m) playerX 0). repeat split.
  - repeat split.
Qed.

Lemma run_config ops :
  minSpawnGap (run ops new) = GAME_CONFIG.OBSTACLE_MIN_GAP /\
  baseSpawnRate (run ops new) = GAME_CONFIG.OBSTACLE_SPAWN_RATE /\
  baseSpeed (run ops new) = GAME_CONFIG.OBSTACLE_MIN_SPEED.
Proof.
  unfold run.
  assert (G : forall m,
             minSpawnGap (fold_left step ops m) = minSpawnGap m /\
             baseSpawnRate (fold_left step ops m) = baseSpawnRate m /\
             baseSpeed (fold_left step ops m) = baseSpeed m).
  { induction ops as [|op ops IH]; intros m; simpl; [repeat split |].
    destruct (IH (step m op)) as (-> & -> & ->). apply step_config. }
  apply (G new).
Qed.

(** [reset()] undoes everything: after any sequence of calls it gives back
    the manager as constructed. *)
Theorem obstacle_reset_restores_new (ops : list Op) :
  reset (run ops new) = new.
Proof.
  destruct (run_config ops) as (H1 & H2 & H3).
  unfold reset. rewrite H1, H2, H3. reflexivity.
Qed.

(** *** Spawning *)

Lemma update_fields rnd m deltaTime timeElapsed level speedMultiplier :
  let m' := update rnd m deltaTime timeElapsed level speedMultiplier in
  let rate :=
    Qmax (minSpawnGap m)
         (baseSpawnRate m
          - inject_Z level * GAME_CONFIG.DIFFICULTY_SPAWN_DECREASE) in
  spawnRate m' = rate /\
  difficultyLevel m' = level /\
  (if Qle_bool rate (timeElapsed - lastSpawnTime m)
   then totalSpawned m' = (totalSpawned m + 1)%Z /\ lastSpawnTime m' = timeElapsed
   else totalSpawned m' = totalSpawned m /\ lastSpawnTime m' = lastSpawnTime m).
Proof.
  cbv zeta. unfold update, removeOffscreenObstacles.
  rewrite filterOffscreen_filter.
  unfold updateObstacles, handleSpawning, updateSpawnRate.
  cbn [spawnRate lastSpawnTime minSpawnGap baseSpawnRate difficultyLevel
       totalSpawned obstacles].
  split_if;
    cbn [spawnRate lastSpawnTime minSpawnGap baseSpawnRate difficultyLevel
         totalSpawned obstacles spawnObstacle totalDestroyed baseSpeed];
    repeat split.
Qed.

(** After [update] on a manager reached from construction the spawn interval
    is max(500, 1500 - 150 * level): never under 500 ms, 1500 - 150 * level
    up to level 6 and 500 from level 7 on. *)
Theorem spawn_rate_after_update
  (ops : list Op) (rnd : Random) (deltaTime timeElapsed : Q) (level : Z)
  (speedMultiplier : option Q) :
  let m := update rnd (run ops new) deltaTime timeElapsed level speedMultiplier in
  500 <= spawnRate m /\
  ((level <= 6)%Z -> spawnRate m == 1500 - 150 * inject_Z level) /\
  ((7 <= level)%Z -> spawnRate m == 500).
Proof.
  cbv zeta.
  destruct (update_fields rnd (run ops new) deltaTime timeElapsed level
              speedMultiplier) as (-> & _).
  destruct (run_config ops) as (-> & -> & _).
  unfold GAME_CONFIG.OBSTACLE_MIN_GAP, GAME_CONFIG.OBSTACLE_SPAWN_RATE,
    GAME_CONFIG.DIFFICULTY_SPAWN_DECREASE.
  assert (H6 : (level <= 6)%Z -> inject_Z level <= 6).
  { intros Hl. change 6 with (inject_Z 6). now rewrite <- Zle_Qle. }
  assert (H7 : (7 <= level)%Z -> 7 <= inject_Z level).
  { intros Hl. change 7 with (inject_Z 7). now rewrite <- Zle_Qle. }
  destruct (Q.max_spec 500 (1500 - inject_Z level * 150)) as [[H E] | [H E]];
    rewrite E;
    (split; [lra | split; intros Hl;
                   [specialize (H6 Hl) | specialize (H7 Hl)]; lra]).
Qed.

Lemma spawn_rate_after_update_witness :
  spawnRate (update (mkRandom (1 # 2) 0) (run [] new) 16 40000 9 None) == 500.
Proof.
  apply (proj2 (proj2 (spawn_rate_after_update [] (mkRandom (1 # 2) 0)
                         16 40000 9 None))).
  lia.
Defined.

(** One [update] spawns at most one obstacle, however long the frame: it
    spawns exactly when the new spawn interval has passed since the last
    spawn, and then records timeElapsed as the time of the last spawn. *)
Theorem update_spawns_at_most_one
  (rnd : Random) (m : t) (deltaTime timeElapsed : Q) (level : Z)
  (speedMultiplier : option Q) :
  let m' := update rnd m deltaTime timeElapsed level speedMultiplier in
  (totalSpawned m' = totalSpawned m \/ totalSpawned m' = (totalSpawned m + 1)%Z) /\
  (totalSpawned m' = (totalSpawned m + 1)%Z <->
   spawnRate m' <= timeElapsed - lastSpawnTime m) /\
  (totalSpawned m' = (totalSpawned m + 1)%Z -> lastSpawnTime m' = timeElapsed) /\
  (totalSpawned m' = totalSpawned m -> lastSpawnTime m' = lastSpawnTime m).
Proof.
  cbv zeta.
  destruct (update_fields rnd m deltaTime timeElapsed level speedMultiplier)
    as (Hr & _ & H).
  rewrite Hr.
  destruct (Qle_bool _ (timeElapsed - lastSpawnTime m)) eqn:E; reflect_tests;
    destruct H as [Hs Hl]; rewrite Hs, Hl.
  - repeat split; auto; intros; try lia.
  - repeat split; auto; intros; try lia; exfalso; lra.
Qed.

(** One frame of ten seconds on a new manager. *)
Lemma update_spawns_at_most_one_witness :
  lastSpawnTime (update (mkRandom (1 # 2) 0) new 10000 10000 0 None) = 10000.
Proof.
  apply (proj1 (proj2 (proj2 (update_spawns_at_most_one (mkRandom (1 # 2) 0)
                                new 10000 10000 0 None)))).
  reflexivity.
Defined.

End ObstacleFacts.

Module ObstacleLifecycle.
Import ObstacleManager ObstacleOps ObstacleFacts.

(** With draws in [0, 1), [spawnObstacle] appends one obstacle of a real
    type at x = CANVAS_WIDTH + 50, standing between y = 100 and the ground
    level 500, moving at baseSpeed * (1 + 0.2 * level), active and not yet
    passed. *)
Theorem spawned_obstacle (rnd : Random) (m : t) :
  0 <= random_type rnd -> random_type rnd < 1 ->
  0 <= random_y rnd -> random_y rnd < 1 ->
  exists o,
    obstacles (spawnObstacle rnd m) = obstacles m ++ [o] /\
    Obstacle.type o <> None /\
    Obstacle.x o == 1250 /\
    100 <= Obstacle.y o /\ Obstacle.y o + Obstacle.height o <= 500 /\
    Obstacle.speed o
    == baseSpeed m * (1 + (2 # 10) * inject_Z (difficultyLevel m)) /\
    Obstacle.isActive o = true /\ Obstacle.hasBeenPassed o = false.
Proof.
  intros Ht0 Ht1 Hy0 Hy1. unfold spawnObstacle. eexists. split; [reflexivity |].
  pose proof (UtilsFacts.randomIntBetween_between (random_type rnd) 0 2 Ht0 Ht1)
    as Hi.
  change (Z.of_nat (length obstacleTypes) - 1)%Z with 2%Z.
  set (i := randomIntBetween (random_type rnd) 0 2) in *.
  assert (Hcases : i = 0%Z \/ i = 1%Z \/ i = 2%Z) by lia.
  clearbody i.
  unfold Obstacle.new, getSpawnYForType, randomBetween,
    GAME_CONFIG.CANVAS_HEIGHT, GAME_CONFIG.CANVAS_WIDTH,
    GAME_CONFIG.DIFFICULTY_SPEED_INCREASE.
  destruct Hcases as [-> | [-> | ->]];
    [change (obstacleTypes_at 0) with (Some SPIKE)
    |change (obstacleTypes_at 1) with (Some DEBRIS)
    |change (obstacleTypes_at 2) with (Some LASER)];
    cbn [Obstacle.setDimensionsByType Obstacle.type Obstacle.x Obstacle.y
         Obstacle.height Obstacle.speed Obstacle.isActive
         Obstacle.hasBeenPassed];
    (split; [discriminate |]);
    (split; [reflexivity |]);
    (split; [nra |]);
    (split; [nra |]);
    (split; [ring |]); split; reflexivity.
Qed.

Lemma spawned_obstacle_witness :
  exists o,
    obstacles (spawnObstacle (mkRandom (1 # 2) 0) new) = obstacles new ++ [o] /\
    Obstacle.type o <> None /\
    Obstacle.x o == 1250 /\
    100 <= Obstacle.y o /\ Obstacle.y o + Obstacle.height o <= 500 /\
    Obstacle.speed o
    == baseSpeed new * (1 + (2 # 10) * inject_Z (difficultyLevel new)) /\
    Obstacle.isActive o = true /\ Obstacle.hasBeenPassed o = false.
Proof.
  apply (spawned_obstacle (mkRandom (1 # 2) 0) new); try reflexivity;
    apply Qle_bool_iff; reflexivity.
Defined.

(** *** Removal *)

Lemma filter_onscreen_twice (l : list Obstacle.t) :
  filter (fun o => negb (Obstacle.isOffScreen o))
         (filter (fun o => negb (Obstacle.isOffScreen o)) l)
  = filter (fun o => negb (Obstacle.isOffScreen o)) l.
Proof.
  induction l as [|o l IH]; trivial.
  cbn [filter]. destruct (Obstacle.isOffScreen o) eqn:E; cbn [negb filter];
    trivial.
  rewrite E. cbn [negb]. now rewrite IH.
Qed.

Lemma filter_offscreen_kept (l : list Obstacle.t) :
  filter Obstacle.isOffScreen
         (filter (fun o => negb (Obstacle.isOffScreen o)) l) = [].
Proof.
  induction l as [|o l IH]; trivial.
  cbn [filter]. destruct (Obstacle.isOffScreen o) eqn:E; cbn [negb filter];
    trivial.
  now rewrite E.
Qed.

Lemma removeOffscreenObstacles_exact_filter (m : t) :
  obstacles (removeOffscreenObstacles m)
  = filter (fun o => negb (Obstacle.isOffScreen o)) (obstacles m).
Proof.
  unfold removeOffscreenObstacles. rewrite filterOffscreen_filter. reflexivity.
Qed.

(** [removeOffscreenObstacles] keeps, in their order, exactly the obstacles
    that are not off screen and counts the others as destroyed; a second
    call changes nothing. *)
Theorem removeOffscreenObstacles_exact (m : t) :
  let m' := removeOffscreenObstacles m in
  obstacles m' = filter (fun o => negb (Obstacle.isOffScreen o)) (obstacles m) /\
  totalDestroyed m'
  = (totalDestroyed m
     + Z.of_nat (length (filter Obstacle.isOffScreen (obstacles m))))%Z /\
  removeOffscreenObstacles m' = m'.
Proof.
  cbv zeta. unfold removeOffscreenObstacles. rewrite filterOffscreen_filter.
  cbn [obstacles totalDestroyed lastSpawnTime spawnRate minSpawnGap
       difficultyLevel baseSpawnRate baseSpeed totalSpawned].
  split; [reflexivity | split; [reflexivity |]].
  rewrite filterOffscreen_filter.
  rewrite filter_onscreen_twice, filter_offscreen_kept. simpl.
  rewrite Z.add_0_r. reflexivity.
Qed.

(** After [update] no obstacle of the collection is off screen: every one
    has its right edge at 0 or beyond. *)
Theorem update_leaves_none_offscreen
  (rnd : Random) (m : t) (deltaTime timeElapsed : Q) (level : Z)
  (speedMultiplier : option Q) :
  Forall (fun o => 0 <= Obstacle.x o + Obstacle.width o)
    (obstacles (update rnd m deltaTime timeElapsed level speedMultiplier)).
Proof.
  unfold update.
  rewrite removeOffscreenObstacles_exact_filter.
  apply Forall_forall. intros o Ho. apply filter_In in Ho. destruct Ho as [_ Ho].
  unfold Obstacle.isOffScreen in Ho. apply negb_true_iff in Ho.
  now apply Qlt_bool_false_iff in Ho.
Qed.

(** *** Passing *)

Lemma markPassed_map obs playerX n :
  markPassed obs playerX n
  = (map (fun o => if Obstacle.hasPlayerPassed o playerX
                   then Obstacle.markAsPassed o else o) obs,
     (n + Z.of_nat (length (filter (fun o => Obstacle.hasPlayerPassed o playerX)
                                   obs)))%Z).
Proof.
  revert n. induction obs as [|o obs IH]; intros n.
  - simpl. f_equal. lia.
  - cbn [markPassed map filter].
    destruct (Obstacle.hasPlayerPassed o playerX); rewrite IH; simpl;
      f_equal; lia.
Qed.

(** [checkObstaclesPassed] returns the number of obstacles not yet passed
    whose right edge is left of playerX, marks exactly those, and moves
    none. *)
Theorem checkObstaclesPassed_count (m : t) (playerX : Q) :
  let (count, m') := checkObstaclesPassed m playerX in
  count
  = Z.of_nat (length (filter (fun o => Obstacle.hasPlayerPassed o playerX)
                             (obstacles m))) /\
  obstacles m'
  = map (fun o => if Obstacle.hasPlayerPassed o playerX
                  then Obstacle.markAsPassed o else o) (obstacles m) /\
  map Obstacle.x (obstacles m') = map Obstacle.x (obstacles m) /\
  Forall2 (fun o o' => Obstacle.hasBeenPassed o = true ->
                       Obstacle.hasBeenPassed o' = true)
          (obstacles m) (obstacles m').
Proof.
  unfold checkObstaclesPassed. rewrite markPassed_map.
  cbn [obstacles]. repeat split.
  - rewrite map_map. apply map_ext. intros o.
    destruct (Obstacle.hasPlayerPassed o playerX); reflexivity.
  - induction (obstacles m) as [|o l IH]; simpl; constructor; trivial.
    destruct (Obstacle.hasPlayerPassed o playerX); simpl; trivial.
Qed.

(** An obstacle is counted once: a second [checkObstaclesPassed], for the
    same player position or one further left, returns 0 and changes
    nothing. *)
Theorem passed_is_counted_once (m : t) (playerX playerX' : Q) :
  playerX' <= playerX ->
  let m' := snd (checkObstaclesPassed m playerX) in
  checkObstaclesPassed m' playerX' = (0%Z, m').
Proof.
  intros Hle. cbv zeta. unfold checkObstaclesPassed.
  rewrite !markPassed_map. cbn [snd obstacles lastSpawnTime spawnRate
    minSpawnGap difficultyLevel baseSpawnRate baseSpeed totalSpawned
    totalDestroyed].
  set (l' := map _ (obstacles m)).
  assert (N : forall o, In o l' -> Obstacle.hasPlayerPassed o playerX' = false).
  { unfold l'. intros o Ho. apply in_map_iff in Ho.
    destruct Ho as (o0 & <- & _).
    destruct (Obstacle.hasPlayerPassed o0 playerX) eqn:E.
    - reflexivity.
    - unfold Obstacle.hasPlayerPassed in *.
      destruct (Obstacle.hasBeenPassed o0); simpl in *; trivial.
      reflect_tests. apply Qlt_bool_false_iff. lra. }
  assert (K1 : map (fun o => if Obstacle.hasPlayerPassed o playerX'
                             then Obstacle.markAsPassed o else o) l' = l').
  { clear -N. induction l' as [|o l IH]; simpl; trivial.
    rewrite (N o) by (now left). rewrite IH; trivial.
    intros o' Ho'. apply N. now right. }
  assert (K2 : filter (fun o => Obstacle.hasPlayerPassed o playerX') l' = []).
  { clear -N. induction l' as [|o l IH]; simpl; trivial.
    rewrite (N o) by (now left). apply IH.
    intros o' Ho'. apply N. now right. }
  rewrite K1, K2. reflexivity.
Qed.

Lemma passed_is_counted_once_witness :
  let m := spawnObstacle (mkRandom (1 # 2) 0) new in
  let m' := snd (checkObstaclesPassed m 2000) in
  checkObstaclesPassed m' 2000 = (0%Z, m').
Proof.
  apply (passed_is_counted_once (spawnObstacle (mkRandom (1 # 2) 0) new)
           2000 2000).
  apply Qle_bool_iff. reflexivity.
Defined.

(** *** Collision *)

(** [checkCollisions] returns the first obstacle, in stored order, whose
    box overlaps the player's, and [null] exactly when none does. *)
Theorem checkCollisions_first (m : t) (player : Player.t) :
  match checkCollisions m player with
  | Some o =>
      exists before after,
        obstacles m = before ++ o :: after /\
        checkCollision (Player.getBounds player) (Obstacle.getBounds o) = true /\
        Forall (fun b => checkCollision (Player.getBounds player)
                                        (Obstacle.getBounds b) = false) before
  | None =>
      Forall (fun o => checkCollision (Player.getBounds player)
                                      (Obstacle.getBounds o) = false)
             (obstacles m)
  end.
Proof.
  unfold checkCollisions.
  induction (obstacles m) as [|o l IH]; simpl; [constructor |].
  destruct (checkCollision (Player.getBounds player) (Obstacle.getBounds o))
    eqn:E.
  - exists [], l. repeat split; trivial.
  - destruct (find _ l) as [c|].
    + destruct IH as (before & after & -> & Hc & Hb).
      exists (o :: before), after. repeat split; trivial.
      constructor; trivial.
    + constructor; trivial.
Qed.

End ObstacleLifecycle.

Module PowerLifecycle.
Import PowerManager PowerOps PowerFacts PowerTimers PowerEquiv.

Lemma configured_positive n :
  0 < configuredDuration n /\ configuredDuration n < configuredCooldown n.
Proof. destruct n; split; reflexivity. Qed.

Lemma new_inv n : power_inv n (powers new n).
Proof. destruct n; repeat split. Qed.

Lemma tick_inv d n p : power_inv n p -> power_inv n (tick d p).
Proof.
  destruct (configured_positive n) as [Hpos Hlt].
  destruct p as [a c du md mc]. unfold power_inv, tick.
  cbn [active cooldown duration maxDuration maxCooldown set_duration
       set_active set_cooldown].
  intros (Hmd & Hmc & H). destruct a.
  - destruct H as [Hd Hc].
    cbn [active cooldown duration maxDuration maxCooldown set_duration
         set_active set_cooldown].
    destruct (Qle_bool (du - d) 0) eqn:E1;
      cbn [active cooldown duration maxDuration maxCooldown set_duration
           set_active set_cooldown];
      destruct (Qlt_bool 0 c) eqn:E2;
      cbn [active cooldown duration maxDuration maxCooldown set_duration
           set_active set_cooldown];
      try (destruct (Qle_bool (c - d) 0) eqn:E3);
      cbn [active cooldown duration maxDuration maxCooldown set_duration
           set_active set_cooldown];
      reflect_tests; repeat split; trivial; try lra.
  - cbn [active cooldown duration maxDuration maxCooldown set_duration
         set_active set_cooldown].
    destruct (Qlt_bool 0 c) eqn:E2;
      cbn [active cooldown duration maxDuration maxCooldown set_duration
           set_active set_cooldown];
      try (destruct (Qle_bool (c - d) 0) eqn:E3);
      cbn [active cooldown duration maxDuration maxCooldown set_duration
           set_active set_cooldown];
      repeat split; trivial.
Qed.

Lemma step_inv pm op :
  (forall n, power_inv n (powers pm n)) ->
  forall n, power_inv n (powers (step pm op) n).
Proof.
  intros H m. destruct op as [d | n | n | | ]; simpl.
  - rewrite update_powers. apply tick_inv, H.
  - destruct (fst (activate n pm)) eqn:E.
    + rewrite (activate_powers _ _ _ E).
      destruct (PowerName_eqb m n) eqn:Emn.
      * apply PowerName_eqb_eq in Emn. subst m.
        destruct (H n) as (Hmd & Hmc & _).
        destruct (configured_positive n) as [Hpos Hlt].
        unfold power_inv, activated. cbn. rewrite Hmd, Hmc.
        repeat split; trivial. ring.
      * destruct (H m) as (Hmd & Hmc & Hd).
        destruct (active (powers pm m)) eqn:Ea; [| apply H].
        unfold power_inv, deactivated. cbn. repeat split; trivial.
    + rewrite (activate_refused _ _ E). apply H.
  - rewrite deactivatePower_powers. destruct (H n) as (Hmd & Hmc & _).
    destruct (PowerName_eqb m n) eqn:Emn; [| apply H].
    apply PowerName_eqb_eq in Emn. subst m.
    unfold power_inv, deactivated. cbn. repeat split; trivial.
  - rewrite deactivateAllPowers_powers. destruct (H m) as (Hmd & Hmc & _).
    destruct (active (powers pm m)); [| apply H].
    unfold power_inv, deactivated. cbn. repeat split; trivial.
  - rewrite reset_powers. destruct (H m) as (Hmd & Hmc & _).
    unfold power_inv. cbn. repeat split; trivial.
Qed.

Lemma run_inv ops n : power_inv n (powers (run ops new) n).
Proof.
  unfold run.
  assert (G : forall pm, (forall k, power_inv k (powers pm k)) ->
                         forall k, power_inv k (powers (fold_left step ops pm) k)).
  { induction ops as [|op ops IH]; intros pm H; simpl; trivial.
    apply IH, step_inv, H. }
  apply G, new_inv.
Qed.

(** In every manager reached from construction, whatever the deltaTime of
    the updates, a power is active exactly when it has remaining duration
    (> 0), a power that is off has duration 0, and the maxima are the
    configured ones. *)
Theorem active_iff_time_left (ops : list Op) (n : PowerName) :
  let p := powers (run ops new) n in
  (active p = true <-> 0 < duration p) /\
  (active p = false -> duration p = 0) /\
  maxDuration p = configuredDuration n /\
  maxCooldown p = configuredCooldown n.
Proof.
  cbv zeta. destruct (run_inv ops n) as (Hmd & Hmc & H).
  destruct (active (powers (run ops new) n)).
  - destruct H as [Hd _]. repeat split; trivial; discriminate.
  - repeat split; trivial; intros; try discriminate.
    rewrite H in *. exfalso. lra.
Qed.

Lemma active_iff_time_left_witness :
  duration (powers (run [Activate freeze; Update 2500] new) freeze) = 0.
Proof.
  apply (proj1 (proj2 (active_iff_time_left [Activate freeze; Update 2500]
                         freeze))).
  reflexivity.
Defined.

(** While a power is active its remaining duration is positive and its
    cooldown is at least as long: the cooldown, started at activation, never
    runs out before the active time does. *)
Theorem cooldown_outlasts_duration (ops : list Op) (n : PowerName) :
  let p := powers (run ops new) n in
  active p = true -> 0 < duration p /\ duration p <= cooldown p.
Proof.
  cbv zeta. destruct (run_inv ops n) as (_ & _ & H). intros Ha.
  rewrite Ha in H. destruct H as [Hd Hc].
  destruct (configured_positive n) as [_ Hlt].
  split; trivial. rewrite Hc. lra.
Qed.

Lemma cooldown_outlasts_duration_witness :
  let p := powers (run [Activate slow; Update 1000; Update 500] new) slow in
  0 < duration p /\ duration p <= cooldown p.
Proof.
  apply (cooldown_outlasts_duration [Activate slow; Update 1000; Update 500]
           slow).
  reflexivity.
Defined.

(** [reset()] gives back the manager as constructed, after any sequence of
    calls. *)
Theorem power_reset_restores_new (ops : list Op) :
  reset (run ops new) = new.
Proof.
  destruct (run_inv ops freeze) as (F1 & F2 & _).
  destruct (run_inv ops slow) as (S1 & S2 & _).
  destruct (run_inv ops speed) as (P1 & P2 & _).
  destruct (run ops new) as [[af cf df mdf mcf] [asl csl dsl mdsl mcsl]
                              [asp csp dsp mdsp mcsp] st mult].
  cbn in F1, F2, S1, S2, P1, P2. subst. reflexivity.
Qed.

(** Some power is active exactly when the time state is not NORMAL, and
    exactly when the multiplier is not 1. *)
Theorem any_power_active_iff_not_normal (ops : list Op) :
  let pm := run ops new in
  isAnyPowerActive pm = negb (TIME_STATES_eqb (getCurrentTimeState pm) NORMAL) /\
  (isAnyPowerActive pm = false <-> getCurrentMultiplier pm = 1).
Proof.
  cbv zeta. pose proof (run_derived ops new new_derived) as H.
  unfold derived_ok, precedence in H.
  unfold isAnyPowerActive, getCurrentTimeState, getCurrentMultiplier.
  cbn [existsb keys].
  destruct (active (powers (run ops new) freeze)),
    (active (powers (run ops new) slow)),
    (active (powers (run ops new) speed));
    injection H as -> ->; cbn; split; try reflexivity;
    split; intros; try reflexivity; discriminate.
Qed.

End PowerLifecycle.

Module PowerFrames.
Import PowerManager PowerOps PowerFacts PowerTimers PowerEquiv PowerLifecycle.

Lemma power_eq_refl p : power_eq p p.
Proof. unfold power_eq. repeat split; reflexivity. Qed.

Lemma power_eq_trans p q r : power_eq p q -> power_eq q r -> power_eq p r.
Proof.
  unfold power_eq. intros (A1 & C1 & D1 & M1 & N1) (A2 & C2 & D2 & M2 & N2).
  repeat split; try congruence; etransitivity; eassumption.
Qed.

(** [tick] in closed form. *)
Lemma tick_fields d p :
  tick d p
  = mkPower
      (active p && negb (Qle_bool (duration p - d) 0))
      (if Qlt_bool 0 (cooldown p)
       then if Qle_bool (cooldown p - d) 0 then 0 else cooldown p - d
       else cooldown p)
      (if active p
       then if Qle_bool (duration p - d) 0 then 0 else duration p - d
       else duration p)
      (maxDuration p) (maxCooldown p).
Proof.
  destruct p as [a c du md mc]. unfold tick.
  cbn [active cooldown duration maxDuration maxCooldown set_duration
       set_active set_cooldown].
  destruct a; cbn [andb negb];
    [destruct (Qle_bool (du - d) 0) |];
    cbn [active cooldown duration maxDuration maxCooldown set_duration
         set_active set_cooldown negb];
    destruct (Qlt_bool 0 c);
    cbn [active cooldown duration maxDuration maxCooldown set_duration
         set_active set_cooldown];
    try destruct (Qle_bool (c - d) 0); reflexivity.
Qed.

Ltac finish_timers :=
  reflect_tests; first [reflexivity | lra | exfalso; lra].

(** Two ticks with deltaTime >= 0 are one tick of their sum. *)
Lemma tick_splits d1 d2 p :
  0 <= d1 -> 0 <= d2 -> power_eq (tick d2 (tick d1 p)) (tick (d1 + d2) p).
Proof.
  intros H1 H2. rewrite !tick_fields. destruct p as [a c du md mc].
  unfold power_eq.
  cbn [active cooldown duration maxDuration maxCooldown].
  split; [| split; [| split; [| split; reflexivity]]].
  - destruct a; cbn [andb]; trivial.
    destruct (Qle_bool (du - d1) 0) eqn:E1; cbn [negb andb];
      destruct (Qle_bool (du - (d1 + d2)) 0) eqn:E2; cbn [negb];
      try destruct (Qle_bool (du - d1 - d2) 0) eqn:E3; cbn [negb];
      finish_timers.
  - destruct (Qlt_bool 0 c) eqn:E0; [| rewrite E0; reflexivity].
    destruct (Qle_bool (c - d1) 0) eqn:E1;
      destruct (Qle_bool (c - (d1 + d2)) 0) eqn:E2.
    + change (Qlt_bool 0 0) with false. cbn iota. reflexivity.
    + finish_timers.
    + assert (E3 : Qlt_bool 0 (c - d1) = true)
        by (apply Qlt_bool_iff; reflect_tests; lra).
      rewrite E3.
      destruct (Qle_bool (c - d1 - d2) 0) eqn:E4; finish_timers.
    + assert (E3 : Qlt_bool 0 (c - d1) = true)
        by (apply Qlt_bool_iff; reflect_tests; lra).
      rewrite E3.
      destruct (Qle_bool (c - d1 - d2) 0) eqn:E4; finish_timers.
  - destruct a; cbn [andb]; [| reflexivity].
    destruct (Qle_bool (du - d1) 0) eqn:E1; cbn [negb];
      destruct (Qle_bool (du - (d1 + d2)) 0) eqn:E2;
      try destruct (Qle_bool (du - d1 - d2) 0) eqn:E3;
      finish_timers.
Qed.

Lemma derived_of_flags a b :
  derived_ok a -> derived_ok b ->
  (forall n, active (powers a n) = active (powers b n)) ->
  currentTimeState a = currentTimeState b /\ timeMultiplier a = timeMultiplier b.
Proof.
  unfold derived_ok. intros Ha Hb H.
  rewrite (H freeze), (H slow), (H speed), <- Hb in Ha.
  injection Ha as -> ->. split; reflexivity.
Qed.

(** Updates with deltaTime >= 0, on an entry whose flag and duration agree,
    amount to one tick of the time that passed. *)
Lemma ticks_elapsed ds p :
  (active p = true -> 0 < duration p) -> Forall (Qle 0) ds ->
  power_eq (ticks ds p) (tick (elapsed ds) p).
Proof.
  revert p. induction ds as [|d ds IH]; intros p Hp Hds.
  - cbn [ticks fold_left elapsed fold_right].
    destruct p as [a c du md mc]. unfold power_eq, tick.
    cbn [active cooldown duration maxDuration maxCooldown set_duration
         set_active set_cooldown] in *.
    destruct a;
      [specialize (Hp eq_refl) |];
      cbn [active cooldown duration maxDuration maxCooldown set_duration
           set_active set_cooldown];
      repeat (split_if;
              cbn [active cooldown duration maxDuration maxCooldown
                   set_duration set_active set_cooldown]);
      reflect_tests; repeat split; trivial; try reflexivity; try lra.
  - inversion Hds as [|? ? Hd Hrest]; subst.
    change (ticks (d :: ds) p) with (ticks ds (tick d p)).
    cbn [elapsed fold_right]. fold (elapsed ds).
    eapply power_eq_trans; [apply IH; trivial |].
    + intros Ha. destruct p as [a c du md mc]. unfold tick in *.
      cbn [active cooldown duration maxDuration maxCooldown set_duration
           set_active set_cooldown] in *.
      destruct a;
        cbn [active cooldown duration maxDuration maxCooldown set_duration
             set_active set_cooldown] in *;
        repeat (split_if;
                cbn [active cooldown duration maxDuration maxCooldown
                     set_duration set_active set_cooldown] in * );
        reflect_tests; try discriminate; lra.
    + apply tick_splits; trivial. now apply FreezeWindow.elapsed_nonneg.
Qed.

Lemma available_after_elapsed
  (ops : list Op) (n : PowerName) (ds : list Q) :
  fst (activate n (run ops new)) = true ->
  Forall (Qle 0) ds ->
  let pm := run (map Update ds) (snd (activate n (run ops new))) in
  (active (powers pm n) = true <-> elapsed ds < configuredDuration n) /\
  (canActivatePower pm n = true <-> configuredCooldown n <= elapsed ds).
Proof.
  intros Hok Hds. cbv zeta.
  destruct (run_inv ops n) as (Hmd & Hmc & _).
  destruct (configured_positive n) as [Hpos Hlt].
  pose proof (FreezeWindow.elapsed_nonneg ds Hds) as He.
  unfold canActivatePower.
  rewrite FreezeWindow.run_updates_powers, (activate_powers _ _ _ Hok).
  replace (PowerName_eqb n n) with true by (destruct n; reflexivity).
  cbv iota.
  assert (E : power_eq (ticks ds (activated (powers (run ops new) n)))
                       (tick (elapsed ds) (activated (powers (run ops new) n)))).
  { apply ticks_elapsed; trivial. intros _. cbn. now rewrite Hmd. }
  destruct E as (Ea & Ec & _). rewrite Ea.
  rewrite andb_true_iff, Qle_bool_iff, Ec, negb_true_iff.
  rewrite !tick_fields.
  unfold activated.
  cbn [active cooldown duration maxDuration maxCooldown andb].
  rewrite Hmd, Hmc.
  assert (C0 : Qlt_bool 0 (configuredCooldown n) = true)
    by (apply Qlt_bool_iff; lra).
  rewrite C0.
  destruct (Qle_bool (configuredDuration n - elapsed ds) 0) eqn:E1;
    destruct (Qle_bool (configuredCooldown n - elapsed ds) 0) eqn:E2;
    cbn [negb]; reflect_tests;
    (split; split; [intros K | intros K | intros K | intros K]);
    try discriminate; try reflexivity; try lra; try (exfalso; lra);
    try (destruct K as [K1 K2]; try discriminate; lra);
    try (split; [lra | reflexivity]).
Qed.

Lemma elapsed_ms ticks :
  elapsed (map inject_Z ticks) == inject_Z (total_ms ticks).
Proof.
  induction ticks as [|ms ticks IH]; simpl; [reflexivity |].
  rewrite inject_Z_plus. fold (elapsed (map inject_Z ticks)). now rewrite IH.
Qed.

Lemma nonneg_ms ticks :
  Forall (fun ms => (0 <= ms)%Z) ticks -> Forall (Qle 0) (map inject_Z ticks).
Proof.
  induction 1 as [|ms ticks H _ IH]; simpl; constructor; trivial.
  change 0 with (inject_Z 0). now rewrite <- Zle_Qle.
Qed.

Lemma updates_ms_map ticks : updates_ms ticks = map Update (map inject_Z ticks).
Proof. unfold updates_ms. now rewrite map_map. Qed.


(** After a successful activation on a manager reached from construction,
    followed only by updates of whole milliseconds (>= 0), the power is active
    exactly while less than its configured duration has passed, and it can
    be activated again exactly when its configured cooldown has passed. *)
Theorem available_again_after_cooldown
  (ops : list Op) (n : PowerName) (ticks : list Z) :
  fst (activate n (run ops new)) = true ->
  Forall (fun ms => (0 <= ms)%Z) ticks ->
  let pm := run (updates_ms ticks) (snd (activate n (run ops new))) in
  (active (powers pm n) = true
   <-> inject_Z (total_ms ticks) < configuredDuration n) /\
  (canActivatePower pm n = true
   <-> configuredCooldown n <= inject_Z (total_ms ticks)).
Proof.
  intros Hok Hms. cbv zeta. rewrite updates_ms_map, <- elapsed_ms.
  apply available_after_elapsed; trivial. now apply nonneg_ms.
Qed.

Lemma available_again_after_cooldown_witness :
  let pm := run (updates_ms [2500; 3500]%Z) (snd (activate speed (run [] new))) in
  (active (powers pm speed) = true
   <-> inject_Z (total_ms [2500; 3500]%Z) < configuredDuration speed) /\
  (canActivatePower pm speed = true
   <-> configuredCooldown speed <= inject_Z (total_ms [2500; 3500]%Z)).
Proof.
  apply (available_again_after_cooldown [] speed [2500; 3500]%Z).
  - reflexivity.
  - repeat constructor; lia.
Defined.

End PowerFrames.

Module PowerStatusFacts.
Import PowerManager PowerOps PowerFacts PowerTimers PowerEquiv PowerLifecycle
       PowerFrames.

Lemma tick_bounded d p : 0 <= d -> power_bounded p -> power_bounded (tick d p).
Proof.
  intros Hd. rewrite tick_fields. destruct p as [a c du md mc].
  unfold power_bounded.
  cbn [active cooldown duration maxDuration maxCooldown].
  intros (D0 & D1 & C0 & C1).
  assert (Hdur : 0 <= (if a then if Qle_bool (du - d) 0 then 0 else du - d
                       else du) /\
                 (if a then if Qle_bool (du - d) 0 then 0 else du - d
                  else du) <= md).
  { destruct a; [destruct (Qle_bool (du - d) 0) eqn:E |]; reflect_tests;
      split; lra. }
  assert (Hcool : 0 <= (if Qlt_bool 0 c
                        then if Qle_bool (c - d) 0 then 0 else c - d
                        else c) /\
                  (if Qlt_bool 0 c
                   then if Qle_bool (c - d) 0 then 0 else c - d
                   else c) <= mc).
  { destruct (Qlt_bool 0 c) eqn:E0; [destruct (Qle_bool (c - d) 0) eqn:E |];
      reflect_tests; split; lra. }
  tauto.
Qed.

Lemma step_bounded pm op :
  nonneg_delta op ->
  (forall n, power_inv n (powers pm n) /\ power_bounded (powers pm n)) ->
  forall n, power_bounded (powers (step pm op) n).
Proof.
  intros Hop H m. destruct (H m) as [(Hmd & Hmc & _) Hb].
  destruct (configured_positive m) as [Hpos Hlt].
  assert (Z0 : power_bounded (deactivated (powers pm m))).
  { destruct Hb as (? & ? & ? & ?). unfold power_bounded, deactivated. cbn.
    repeat split; trivial; lra. }
  destruct op as [d | n | n | | ]; simpl.
  - rewrite update_powers. now apply tick_bounded.
  - destruct (fst (activate n pm)) eqn:E.
    + rewrite (activate_powers _ _ _ E).
      destruct (PowerName_eqb m n) eqn:Emn.
      * apply PowerName_eqb_eq in Emn. subst m.
        unfold power_bounded, activated. cbn. rewrite Hmd, Hmc.
        repeat split; lra.
      * destruct (active (powers pm m)); trivial.
    + now rewrite (activate_refused _ _ E).
  - rewrite deactivatePower_powers.
    destruct (PowerName_eqb m n) eqn:Emn; trivial.
    apply PowerName_eqb_eq in Emn. now subst m.
  - rewrite deactivateAllPowers_powers.
    destruct (active (powers pm m)); trivial.
  - rewrite reset_powers. unfold power_bounded. cbn. rewrite Hmd, Hmc.
    repeat split; lra.
Qed.

Lemma run_bounded ops n :
  Forall nonneg_delta ops -> power_bounded (powers (run ops new) n).
Proof.
  unfold run. intros Hops.
  assert (G : forall pm,
             (forall k, power_inv k (powers pm k) /\ power_bounded (powers pm k)) ->
             forall k, power_inv k (powers (fold_left step ops pm) k) /\
                       power_bounded (powers (fold_left step ops pm) k)).
  { induction Hops as [|op ops Hop _ IH]; intros pm H; simpl; trivial.
    apply IH. intros k. split.
    - apply step_inv. intros j. apply H.
    - now apply step_bounded. }
  apply G. intros k. split; [apply new_inv |].
  destruct k; unfold power_bounded; cbn; repeat split;
    apply Qle_bool_iff; reflexivity.
Qed.

Lemma fraction_bounds c m :
  0 < m -> 0 <= c -> c <= m ->
  0 <= c / m /\ c / m <= 1 /\ (0 < c -> 0 < c / m).
Proof.
  intros Hm H0 H1. repeat split.
  - apply Qle_shift_div_l; trivial. lra.
  - apply Qle_shift_div_r; trivial. lra.
  - intros Hc. apply Qlt_shift_div_l; trivial. lra.
Qed.

(** With deltaTime >= 0 in every update, the fractions reported by
    [getPowerStatus] lie between 0 and 1; an available power reports 0 for
    both, and an active power reports a duration fraction above 0. *)
Theorem power_status_fractions (ops : list Op) (n : PowerName) :
  Forall nonneg_delta ops ->
  let s := PowerStatus.getPowerStatus (run ops new) n in
  0 <= PowerStatus.cooldownPercent s /\ PowerStatus.cooldownPercent s <= 1 /\
  0 <= PowerStatus.durationPercent s /\ PowerStatus.durationPercent s <= 1 /\
  (PowerStatus.available s = true ->
   PowerStatus.cooldownPercent s = 0 /\ PowerStatus.durationPercent s = 0) /\
  (PowerStatus.active s = true -> 0 < PowerStatus.durationPercent s).
Proof.
  intros Hops. cbv zeta.
  destruct (run_bounded ops n Hops) as (D0 & D1 & C0 & C1).
  destruct (run_inv ops n) as (Hmd & Hmc & Hinv).
  unfold PowerStatus.getPowerStatus, canActivatePower.
  cbn [PowerStatus.cooldownPercent PowerStatus.durationPercent
       PowerStatus.available PowerStatus.active].
  set (p := powers (run ops new) n) in *.
  rewrite Hmd, Hmc in *.
  destruct (configured_positive n) as [Hpos Hlt].
  assert (Hc : 0 <= cooldown p / configuredCooldown n /\
               cooldown p / configuredCooldown n <= 1 /\
               (0 < cooldown p -> 0 < cooldown p / configuredCooldown n))
    by (apply fraction_bounds; trivial; lra).
  assert (Hd : 0 <= duration p / configuredDuration n /\
               duration p / configuredDuration n <= 1 /\
               (0 < duration p -> 0 < duration p / configuredDuration n))
    by (apply fraction_bounds; trivial).
  destruct (Qlt_bool 0 (cooldown p)) eqn:E0; destruct (active p) eqn:Ea;
    reflect_tests;
    (split; [lra || tauto |]); (split; [lra || tauto |]);
    (split; [lra || tauto |]); (split; [lra || tauto |]);
    (split; [| intros K; try discriminate; apply Hd; tauto]);
    rewrite ?andb_true_iff, ?Qle_bool_iff; cbn [negb];
    intros [K1 K2]; try discriminate; try (exfalso; lra); split; reflexivity.
Qed.

Lemma power_status_fractions_witness :
  let s := PowerStatus.getPowerStatus
             (run [Activate freeze; Update 800] new) freeze in
  0 <= PowerStatus.cooldownPercent s /\ PowerStatus.cooldownPercent s <= 1 /\
  0 <= PowerStatus.durationPercent s /\ PowerStatus.durationPercent s <= 1 /\
  (PowerStatus.available s = true ->
   PowerStatus.cooldownPercent s = 0 /\ PowerStatus.durationPercent s = 0) /\
  (PowerStatus.active s = true -> 0 < PowerStatus.durationPercent s).
Proof.
  apply (power_status_fractions [Activate freeze; Update 800] freeze).
  repeat constructor. simpl. apply Qle_bool_iff. reflexivity.
Defined.

End PowerStatusFacts.

Module GameRun.
Import Game GameOps GameEvents GameFacts.

Lemma update_state rnd g d :
  state (update rnd g d) = PLAYING -> state g = PLAYING.
Proof.
  destruct (state g) eqn:Hs; trivial;
    rewrite update_not_playing by congruence; congruence.
Qed.

Lemma update_isRunning rnd g d : isRunning (update rnd g d) = isRunning g.
Proof.
  unfold update. destruct (negb (GAME_STATES_eqb (state g) PLAYING)); trivial.
  cbv zeta.
  match goal with
  | |- context [match ?c with Some _ => _ | None => _ end] => destruct c
  end.
  - unfold updateDifficulty. cbn. split_if; reflexivity.
  - match goal with
    | |- context [let (_, _) := ?c in _] => destruct c as [passed m]
    end.
    unfold updateDifficulty. destruct (0 <? passed)%Z; cbn; split_if;
      reflexivity.
Qed.

Lemma update_timestamps rnd g d :
  lastTime (update rnd g d) = lastTime g /\
  deltaTime (update rnd g d) = deltaTime g.
Proof.
  unfold update. destruct (negb (GAME_STATES_eqb (state g) PLAYING));
    [split; reflexivity |].
  cbv zeta.
  match goal with
  | |- context [match ?c with Some _ => _ | None => _ end] => destruct c
  end.
  - unfold updateDifficulty. cbn. split_if; split; reflexivity.
  - match goal with
    | |- context [let (_, _) := ?c in _] => destruct c as [passed m]
    end.
    unfold updateDifficulty. destruct (0 <? passed)%Z; cbn; split_if;
      split; reflexivity.
Qed.

(** A frame with deltaTime >= 0 never lowers the score. *)
Theorem score_never_decreases (g : t) (f : Frame) :
  0 <= fst f -> score g <= score (frame g f).
Proof.
  destruct f as [d rnd]. unfold frame. cbn [fst snd]. intros Hd.
  destruct (state g) eqn:Hs;
    try (rewrite update_not_playing by congruence; apply Qle_refl).
  destruct (update_playing rnd g d Hs) as (_ & _ & passed & Hp & ->).
  assert (0 <= inject_Z passed)
    by (change 0 with (inject_Z 0); now rewrite <- Zle_Qle).
  assert (0 <= d / 1000)
    by (apply Qle_shift_div_l; [reflexivity | lra]).
  unfold GAME_CONFIG.SCORE_PER_OBSTACLE. lra.
Qed.

Lemma score_never_decreases_witness :
  score Scenario.started <= score (frame Scenario.started (1500, Scenario.rnd)).
Proof.
  apply (score_never_decreases Scenario.started (1500, Scenario.rnd)).
  apply Qle_bool_iff. reflexivity.
Defined.

(** *** Events *)

Lemma handle_idle g e :
  state g <> PLAYING ->
  (state g = GAME_OVER -> not_restart e) ->
  (state g = MENU -> not_space e) ->
  core (handle g e) = core g.
Proof.
  intros Hs Hr Hm. destruct e as [now k | rnd currentTime]; cbn [handle].
  - unfold handleKeyPress, request.
    destruct (state g) eqn:E; try congruence; destruct k; cbn;
      try reflexivity;
      try (exfalso; apply (Hr eq_refl));
      try (exfalso; apply (Hm eq_refl)).
  - unfold gameLoop. destruct (isRunning g) eqn:R; trivial. cbn [negb].
    rewrite update_not_playing by exact Hs. unfold core. cbn.
    now rewrite R.
Qed.

(** Once the game is over, nothing but the R key changes the run: key
    presses and animation frames leave state, score, timeElapsed, level,
    player, obstacles and powers as they are. *)
Theorem game_over_is_final (g : t) (events : list Event) :
  state g = GAME_OVER -> Forall not_restart events ->
  core (play events g) = core g.
Proof.
  intros Hs Hev. revert g Hs.
  induction Hev as [|e es He _ IH]; intros g Hs; trivial.
  cbn [play fold_left]. fold (play es (handle g e)).
  assert (Hc : core (handle g e) = core g).
  { apply handle_idle; [congruence | intros _; exact He | congruence]. }
  rewrite IH, Hc; trivial.
  unfold core in Hc. congruence.
Qed.

(** A finished game receives a frame, the F key and Space. *)
Lemma game_over_is_final_witness :
  core (play [AnimationFrame Scenario.rnd 9000; KeyPress 9100 KeyF;
              KeyPress 9200 Space]
             (handleGameOver Scenario.spawned))
  = core (handleGameOver Scenario.spawned).
Proof.
  apply (game_over_is_final (handleGameOver Scenario.spawned)
           [AnimationFrame Scenario.rnd 9000; KeyPress 9100 KeyF;
            KeyPress 9200 Space]).
  - reflexivity.
  - repeat constructor.
Defined.

(** Before Space is pressed nothing happens: no event other than Space
    changes the game as constructed. *)
Theorem menu_waits_for_space (events : list Event) :
  Forall not_space events -> play events new = new.
Proof.
  induction 1 as [|e es He _ IH]; trivial.
  cbn [play fold_left].
  assert (E : handle new e = new); [| now rewrite E].
  destruct e as [now k | rnd currentTime]; [destruct k |]; try reflexivity.
  destruct He.
Qed.

Lemma menu_waits_for_space_witness :
  play [KeyPress 10 KeyF; AnimationFrame Scenario.rnd 16; KeyPress 20 KeyR] new
  = new.
Proof.
  apply (menu_waits_for_space
           [KeyPress 10 KeyF; AnimationFrame Scenario.rnd 16; KeyPress 20 KeyR]).
  repeat constructor.
Defined.

End GameRun.

(** * The powers and the two games *)

Module FrozenHazards.
Import ObstacleManager.


End FrozenHazards.

Module FreezeWindowMs.
Import PowerManager PowerOps PowerFacts PowerEquiv GameEvents.




End FreezeWindowMs.

Module SpeedScoring.
Import PowerManager PowerOps.

(** On a manager reached from construction the time state is FAST exactly
    when Speed is the active power. *)
Lemma fast_iff_speed_active (ops : list Op) :
  TIME_STATES_eqb (getCurrentTimeState (run ops new)) FAST
  = active (powers (run ops new) speed).
Proof.
  pose proof (PowerFacts.run_derived ops new PowerFacts.new_derived) as Hd.
  pose proof (PowerInvariants.run_atMostOne ops new) as Hone.
  assert (H0 : (activeCount new <= 1)%nat) by (apply Nat.leb_le; reflexivity).
  specialize (Hone H0).
  unfold derived_ok in Hd. unfold getCurrentTimeState.
  unfold activeCount, keys in Hone. cbn [filter] in Hone.
  destruct (active (powers (run ops new) freeze)),
           (active (powers (run ops new) slow)),
           (active (powers (run ops new) speed));
    cbn [length] in Hone; try lia;
    unfold precedence in Hd; injection Hd as -> _; reflexivity.
Qed.

(** C2: the score gains are the ones the claim gives.  With a power manager
    reached from construction (the Three.js game), [updateScore] adds
    (deltaTime / 1000) * 1 * 2 while Speed is active and (deltaTime / 1000) * 1
    otherwise, and obstacles that pass add 5 * 2 each while Speed is active
    and 5 each otherwise.  The canvas game never holds a power manager, so
    Speed is never active in it, and its gains are the not-active ones:
    [updateScore] adds (deltaTime / 1000) * 1, and a playing-state [update]
    adds that and then, unless a collision ends the game in the frame, 5 for
    each hazard [checkObstaclesPassed] counts. *)
Theorem speed_doubles_score_gains
  (ops : list Op) (score deltaTime : Q) (obstaclesPassed : Z)
  (events : list GameEvents.Event) (rnd : Random) :
  let pm := run ops new in
  let speedActive := active (powers pm speed) in
  let g := GameEvents.play events Game.new in
  Game3D.updateScore (Some pm) score deltaTime
  = score + deltaTime / 1000 * 1 * (if speedActive then 2 else 1) /\
  Game3D.passScore (getCurrentTimeState pm) score obstaclesPassed
  = (if (0 <? obstaclesPassed)%Z
     then score + inject_Z obstaclesPassed * 5 * (if speedActive then 2 else 1)
     else score) /\
  Game.powerManager g = None /\
  Game.score (Game.updateScore g deltaTime)
  = Game.score g + deltaTime / 1000 * 1 /\
  Game.score (Game.update rnd g deltaTime)
  = match Game.state g with
    | PLAYING =>
        match GameOps.collision_after rnd g deltaTime with
        | Some _ => Game.score g + deltaTime / 1000 * 1
        | None =>
            if (0 <? GameOps.hazards_passed rnd g deltaTime)%Z
            then Game.score g + deltaTime / 1000 * 1
                 + inject_Z (GameOps.hazards_passed rnd g deltaTime) * 5
            else Game.score g + deltaTime / 1000 * 1
        end
    | _ => Game.score g
    end.
Proof.
  cbv zeta. split; [| split; [| split; [| split]]].
  - unfold Game3D.updateScore. rewrite fast_iff_speed_active. reflexivity.
  - unfold Game3D.passScore. rewrite fast_iff_speed_active. reflexivity.
  - apply FrameFacts.play_powerManager.
  - reflexivity.
  - destruct (Game.state (GameEvents.play events Game.new)) eqn:Hs.
    + rewrite GameFacts.update_not_playing; [reflexivity | congruence].
    + exact (proj2 (FrameFacts.update_exact rnd _ deltaTime Hs)).
    + rewrite GameFacts.update_not_playing; [reflexivity | congruence].
Qed.

(** The gains at work: Speed activated and 500 ms later a 1000 ms tick in the
    Three.js rules doubles both gains; in the canvas game a 1000 ms frame in
    which one hazard is passed earns 1 + 5 points. *)
Example speed_doubles_score_gains_example :
  let pm := run [Activate speed; Update 500] new in
  active (powers pm speed) = true /\
  Game3D.updateScore (Some pm) 10 1000 == 12 /\
  Game3D.passScore (getCurrentTimeState pm) 10 3 == 40 /\
  Game3D.updateScore (Some new) 10 1000 == 11 /\
  Game3D.passScore (getCurrentTimeState new) 10 3 == 25 /\
  GameOps.hazards_passed Scenario.rnd Scenario.spawned 1000 = 1%Z /\
  Game.score (Game.update Scenario.rnd Scenario.spawned 1000)
  - Game.score Scenario.spawned == 6.
Proof. cbv zeta. repeat split; vm_compute; reflexivity. Qed.

End SpeedScoring.
